(** * NGS barcode clash checker: the comparison core of [streamlit_app.py]

    The four functions of the core are embedded here:
    [hamming_distance], [check_barcodes_within_set],
    [check_barcodes_between_sets] and [validate_barcodes].

    Data model.
    - A Python [str] is a Rocq [string]; a character is a code point in
      the range 0..255.  [str.strip] and [str.upper] are written out for
      that range (see [is_space] and [upper_char]).
    - A Python [int] is a [Z].  The result of [hamming_distance] is either
      an [int] or [float('inf')]: type [number].
    - A clash record is a Python [dict] with string keys: a
      [gmap string field], built by inserting the items of the dict
      display from left to right.
    - A Python [list] is a [list]; [clashes.append(x)] is [clashes ++ [x]].
    - [list(set(barcodes))] has no defined order: it is modelled as the
      relation [list_of_set] and [check_barcodes_within_set] is
      accordingly a relation between its arguments and its result. *)

From Stdlib Require Import ZArith Lia Ascii.
From stdpp Require Import gmap strings list fin_maps.

Local Open Scope string_scope.
Local Open Scope list_scope.
Local Open Scope Z_scope.

(** ** Strings *)

Module Str.

(** Iterating over a [str] yields its characters in order. *)
Definition chars (s : string) : list ascii := String.list_ascii_of_string s.

Definition of_chars (l : list ascii) : string := String.string_of_list_ascii l.

(** [len(s)] *)
Definition len (s : string) : Z := Z.of_nat (String.length s).

Definition code (c : ascii) : N := Ascii.N_of_ascii c.

(** The code points below 256 that Python counts as whitespace:
    TAB LF VT FF CR, the separators FS GS RS US, SPACE, NEL and NBSP. *)
Definition is_space (c : ascii) : bool :=
  let n := code c in
  ((9 <=? n) && (n <=? 13) || (28 <=? n) && (n <=? 32)
   || (n =? 133) || (n =? 160))%N.

Fixpoint lstrip_chars (l : list ascii) : list ascii :=
  match l with
  | c :: r => if is_space c then lstrip_chars r else l
  | [] => []
  end.

Definition rstrip_chars (l : list ascii) : list ascii :=
  reverse (lstrip_chars (reverse l)).

(** [s.strip()]: leading whitespace goes first, then trailing. *)
Definition strip (s : string) : string :=
  of_chars (rstrip_chars (lstrip_chars (chars s))).

(** Upper-casing of one character: Python's mapping on ASCII.  From 128
    on a code point is left as it is: there Python's result is never a
    text over the letters A, C, G, T, and [validate_barcodes] only tests
    the upper-cased text against these letters and drops it when the
    test fails, so both give the same outputs. *)
Definition upper_char (c : ascii) : ascii :=
  let n := code c in
  if ((97 <=? n) && (n <=? 122))%N then Ascii.ascii_of_N (n - 32) else c.

(** [s.upper()] *)
Definition upper (s : string) : string := of_chars (map upper_char (chars s)).

(** [c in t] for a one-character string [c]. *)
Definition char_in (c : ascii) (t : string) : bool :=
  existsb (Ascii.eqb c) (chars t).

(** Truth value of a [str]: non-empty. *)
Definition truthy (s : string) : bool :=
  match s with EmptyString => false | String _ _ => true end.

(** The separator of [split('\n')]: LF. *)
Definition newline : ascii := "010"%char.

(** The first piece of [l] and the pieces after it, cut at every
    occurrence of [sep]. *)
Fixpoint split_chars (sep : ascii) (l : list ascii)
  : list ascii * list (list ascii) :=
  match l with
  | [] => ([], [])
  | c :: r =>
      let '(piece, pieces) := split_chars sep r in
      if Ascii.eqb c sep then ([], piece :: pieces) else (c :: piece, pieces)
  end.

(** [s.split(sep)] for a one-character separator: the text is cut at
    every separator, so the empty text gives one empty piece. *)
Definition split (s : string) (sep : ascii) : list string :=
  let '(piece, pieces) := split_chars sep (chars s) in
  map of_chars (piece :: pieces).

End Str.

(** ** Numbers *)

(** The value of [hamming_distance]: an [int], or [float('inf')]. *)
Inductive number : Type :=
| Int (z : Z)
| Inf.

Global Instance number_eq_dec : EqDecision number.
Proof. solve_decision. Defined.

(** [d <= t] for an integer threshold [t]. *)
Definition number_le (d : number) (t : Z) : bool :=
  match d with
  | Int z => z <=? t
  | Inf => false
  end.

(** [sum(b for b in bs)] over booleans: starts at 0, [True] counts 1. *)
Definition sum_bools (bs : list bool) : Z :=
  fold_left (fun acc (b : bool) => acc + Z.b2z b) bs 0.

(** ** [hamming_distance] *)

Definition hamming_distance (s1 s2 : string) : number :=
  if negb (Str.len s1 =? Str.len s2) then Inf
  else Int (sum_bools
              (map (fun '(c1, c2) => negb (Ascii.eqb c1 c2))
                   (zip (Str.chars s1) (Str.chars s2)))).

(** ** Clash records *)

(** A value stored in a clash record. *)
Inductive field : Type :=
| FStr (s : string)
| FNum (d : number).

Global Instance field_eq_dec : EqDecision field.
Proof. solve_decision. Defined.

Abbreviation record := (gmap string field).

(** A dict display [{k1: v1, ..., kn: vn}]: the items are stored from
    left to right, a later item replacing an earlier one with its key. *)
Definition dict_display {V : Type} (items : list (string * V)) : gmap string V :=
  fold_left (fun d kv => <[kv.1 := kv.2]> d) items ∅.

(** ** [check_barcodes_within_set] *)

(** [itertools.combinations(l, 2)] *)
Fixpoint combinations2 {A : Type} (l : list A) : list (A * A) :=
  match l with
  | [] => []
  | x :: r => map (pair x) r ++ combinations2 r
  end.

Definition within_record (bc1 bc2 : string) (distance : number) : record :=
  dict_display [("Barcode 1", FStr bc1);
                ("Barcode 2", FStr bc2);
                ("Hamming Distance", FNum distance)].

(** The loop over the pairs of [barcode_list]. *)
Definition within_loop (barcode_list : list string) (max_distance : Z)
  : list record :=
  fold_left
    (fun (clashes : list record) '(bc1, bc2) =>
       let distance := hamming_distance bc1 bc2 in
       if number_le distance max_distance
       then clashes ++ [within_record bc1 bc2 distance]
       else clashes)
    (combinations2 barcode_list) [].

(** [barcode_list = list(set(barcodes))]: the elements of [barcodes],
    each once, in some order. *)
Definition list_of_set (barcodes barcode_list : list string) : Prop :=
  NoDup barcode_list ∧ barcode_list ⊆ barcodes ∧ barcodes ⊆ barcode_list.

(** [check_barcodes_within_set barcodes max_distance result]: the call
    may return [result = (clashes, barcode_list)]. *)
Definition check_barcodes_within_set
    (barcodes : list string) (max_distance : Z)
    (result : list record * list string) : Prop :=
  list_of_set barcodes result.2 ∧
  result.1 = within_loop result.2 max_distance.

(** ** [check_barcodes_between_sets] *)

Definition between_record (set1_name set2_name bc1 bc2 : string)
    (distance : number) : record :=
  dict_display [(set1_name +:+ " Barcode", FStr bc1);
                (set2_name +:+ " Barcode", FStr bc2);
                ("Hamming Distance", FNum distance)].

Definition check_barcodes_between_sets
    (set1 set2 : list string) (max_distance : Z)
    (set1_name set2_name : string) : list record :=
  fold_left
    (fun (clashes : list record) bc1 =>
       fold_left
         (fun (clashes : list record) bc2 =>
            let distance := hamming_distance bc1 bc2 in
            if number_le distance max_distance
            then clashes ++ [between_record set1_name set2_name bc1 bc2 distance]
            else clashes)
         set2 clashes)
    set1 [].

(** ** [validate_barcodes] *)

Definition validate_barcodes (barcodes : list string)
  : list string * list string :=
  fold_left
    (fun '((valid, invalid) : list string * list string) bc =>
       let bc_clean := Str.upper (Str.strip bc) in
       if Str.truthy bc_clean
          && forallb (fun c => Str.char_in c "ACGT") (Str.chars bc_clean)
       then (valid ++ [bc_clean], invalid)
       else (valid, invalid ++ [bc]))
    barcodes ([], []).

(** ** The core on untyped objects *)

(** The same four functions, applied to arbitrary Python objects: an
    operation applied to an object that does not support it raises.
    This is where the core could fail, and what an input of string
    sequences and an integer threshold rules out. *)
Module Dyn.

(** The objects a caller may pass: a [str], a number ([int] or
    [float('inf')]), or [None]. *)
Inductive object : Type :=
| OStr (s : string)
| ONum (d : number)
| ONone.

Inductive exc : Type :=
| TypeError
| AttributeError.

(** A computation returns a value or raises. *)
Definition py (A : Type) : Type := exc + A.

Definition raise {A} (e : exc) : py A := inl e.

Global Instance py_ret : MRet py := λ A x, inr x.

Global Instance py_bind : MBind py := λ A B k m,
  match m with
  | inl e => inl e
  | inr x => k x
  end.

Abbreviation ret := (mret (M := py)).

(** [len(o)]: only a [str] has a length here. *)
Definition len (o : object) : py Z :=
  match o with
  | OStr s => ret (Str.len s)
  | _ => raise TypeError
  end.

(** Iterating over [o], as [zip] does. *)
Definition iter (o : object) : py (list ascii) :=
  match o with
  | OStr s => ret (Str.chars s)
  | _ => raise TypeError
  end.

(** [d <= t] for a distance [d]: a number compares with a number. *)
Definition le (d : number) (t : object) : py bool :=
  match t with
  | ONum (Int z) => ret (number_le d z)
  | ONum Inf => ret true
  | _ => raise TypeError
  end.

(** [o.strip().upper()]: only a [str] has these methods. *)
Definition strip_upper (o : object) : py string :=
  match o with
  | OStr s => ret (Str.upper (Str.strip s))
  | _ => raise AttributeError
  end.

Definition hamming_distance (s1 s2 : object) : py number :=
  n1 ← len s1 ;
  n2 ← len s2 ;
  if negb (n1 =? n2) then ret Inf
  else
    cs1 ← iter s1 ;
    cs2 ← iter s2 ;
    ret (Int (sum_bools
                (map (fun '(c1, c2) => negb (Ascii.eqb c1 c2)) (zip cs1 cs2)))).

Definition within_record (bc1 bc2 : object) (distance : number)
  : gmap string object :=
  dict_display [("Barcode 1", bc1);
                ("Barcode 2", bc2);
                ("Hamming Distance", ONum distance)].

Definition within_loop (barcode_list : list object) (max_distance : object)
  : py (list (gmap string object)) :=
  fold_left
    (fun (state : py (list (gmap string object))) '(bc1, bc2) =>
       clashes ← state ;
       distance ← hamming_distance bc1 bc2 ;
       clash ← le distance max_distance ;
       if clash : bool
       then ret (clashes ++ [within_record bc1 bc2 distance])
       else ret clashes)
    (combinations2 barcode_list) (ret []).

(** Every object here is hashable, so [set(barcodes)] does not raise. *)
Definition check_barcodes_within_set
    (barcodes : list object) (max_distance : object)
    (outcome : py (list (gmap string object) * list object)) : Prop :=
  ∃ barcode_list,
    NoDup barcode_list ∧ barcode_list ⊆ barcodes ∧ barcodes ⊆ barcode_list
    ∧ outcome = (clashes ← within_loop barcode_list max_distance ;
                 ret (clashes, barcode_list)).

Definition between_record (set1_name set2_name : string) (bc1 bc2 : object)
    (distance : number) : gmap string object :=
  dict_display [(set1_name +:+ " Barcode", bc1);
                (set2_name +:+ " Barcode", bc2);
                ("Hamming Distance", ONum distance)].

Definition check_barcodes_between_sets
    (set1 set2 : list object) (max_distance : object)
    (set1_name set2_name : string) : py (list (gmap string object)) :=
  fold_left
    (fun (state : py (list (gmap string object))) bc1 =>
       fold_left
         (fun (state : py (list (gmap string object))) bc2 =>
            clashes ← state ;
            distance ← hamming_distance bc1 bc2 ;
            clash ← le distance max_distance ;
            if clash : bool
            then ret (clashes ++ [between_record set1_name set2_name bc1 bc2 distance])
            else ret clashes)
         set2 state)
    set1 (ret []).

Definition validate_barcodes (barcodes : list object)
  : py (list object * list object) :=
  fold_left
    (fun (state : py (list object * list object)) bc =>
       '(valid, invalid) ← state;
       bc_clean ← strip_upper bc ;
       if Str.truthy bc_clean
          && forallb (fun c => Str.char_in c "ACGT") (Str.chars bc_clean)
       then ret (valid ++ [OStr bc_clean], invalid)
       else ret (valid, invalid ++ [bc]))
    barcodes (ret ([], [])).

(** A typed record as a dict of objects. *)
Definition of_field (f : field) : object :=
  match f with
  | FStr s => OStr s
  | FNum d => ONum d
  end.

Definition of_record (r : record) : gmap string object := of_field <$> r.

End Dyn.

(** ** Reading the text areas *)

(** The list comprehension of the single-set tab:
    [[bc.strip() for bc in barcode_input.split('\n') if bc.strip()]]. *)
Definition single_set_barcodes (barcode_input : string) : list string :=
  map Str.strip
      (List.filter (fun bc => Str.truthy (Str.strip bc))
                   (Str.split barcode_input Str.newline)).

(** The list comprehension of the comparison tab, used for both sets:
    [[bc.strip().upper() for bc in set_input.split('\n') if bc.strip()]]. *)
Definition compare_set_barcodes (set_input : string) : list string :=
  map (fun bc => Str.upper (Str.strip bc))
      (List.filter (fun bc => Str.truthy (Str.strip bc))
                   (Str.split set_input Str.newline)).

(** * Specification vocabulary *)

(** ** Distances *)

(** Following the spec's words: the index positions at which the
    characters of two strings differ. *)
Definition differing_positions (s1 s2 : string) : list nat :=
  filter (λ i, Str.chars s1 !! i ≠ Str.chars s2 !! i)
         (seq 0 (String.length s1)).

(** One item of the sum of [hamming_distance]. *)
Definition differs : ascii * ascii → bool :=
  fun '(c1, c2) => negb (Ascii.eqb c1 c2).

(** [clashing t (a, b)]: the test [distance <= max_distance] of both
    detectors succeeds on the pair. *)
Definition clashing (t : Z) (p : string * string) : Prop :=
  number_le (hamming_distance p.1 p.2) t = true.

Global Instance clashing_dec t p : Decision (clashing t p).
Proof. unfold clashing. apply _. Defined.

(** ** Records and draws *)

(** The records built by the two loop bodies, as functions of the pair. *)
Definition within_record_of (p : string * string) : record :=
  within_record p.1 p.2 (hamming_distance p.1 p.2).

Definition between_record_of (set1_name set2_name : string)
    (p : string * string) : record :=
  between_record set1_name set2_name p.1 p.2 (hamming_distance p.1 p.2).

(** [r] is a record of the unordered pair [{a, b}]. *)
Definition same_pair_record (a b : string) (r : record) : Prop :=
  r = within_record a b (hamming_distance a b)
  ∨ r = within_record b a (hamming_distance b a).

(** Following the spec's words: the ordered pairs of one draw from set 1
    and one draw from set 2, as pairs of positions [(i, j)], in the order
    of the two nested loops.  Equal barcodes at different positions are
    different draws. *)
Definition index_pairs (n m : nat) : list (nat * nat) :=
  cprod (seq 0 n) (seq 0 m).

(** The barcodes at positions [i] of set 1 and [j] of set 2 clash. *)
Definition clash_at (set1 set2 : list string) (t : Z) (ij : nat * nat) : Prop :=
  match set1 !! ij.1, set2 !! ij.2 with
  | Some a, Some b => clashing t (a, b)
  | _, _ => False
  end.

Global Instance clash_at_dec set1 set2 t ij : Decision (clash_at set1 set2 t ij).
Proof. unfold clash_at. destruct (set1 !! ij.1), (set2 !! ij.2); apply _. Defined.

(** [r] is the record of the pair drawn at positions [(i, j)]. *)
Definition record_at (set1 set2 : list string) (n1 n2 : string)
    (r : record) (ij : nat * nat) : Prop :=
  ∃ a b, set1 !! ij.1 = Some a ∧ set2 !! ij.2 = Some b
         ∧ r = between_record n1 n2 a b (hamming_distance a b).

(** [r] is the record of the pair drawn at positions [(i, j)], and that
    pair passed the threshold test. *)
Definition clash_record_at (set1 set2 : list string) (t : Z) (n1 n2 : string)
    (r : record) (ij : nat * nat) : Prop :=
  ∃ a b, set1 !! ij.1 = Some a ∧ set2 !! ij.2 = Some b
         ∧ clashing t (a, b)
         ∧ r = between_record n1 n2 a b (hamming_distance a b).

(** Whether a given pair can be the result of [check_barcodes_within_set]
    is decidable. *)
Global Instance list_of_set_dec barcodes barcode_list :
  Decision (list_of_set barcodes barcode_list).
Proof. unfold list_of_set. apply _. Defined.

Global Instance check_barcodes_within_set_dec barcodes t result :
  Decision (check_barcodes_within_set barcodes t result).
Proof. unfold check_barcodes_within_set. apply _. Defined.

(** ** Valid barcodes *)

(** Following the spec's words: one of A, C, G, T. *)
Definition dna_char (c : ascii) : Prop :=
  c = "A"%char ∨ c = "C"%char ∨ c = "G"%char ∨ c = "T"%char.

(** The strings matching [[ACGT]+]. *)
Definition matches_ACGT_plus (s : string) : Prop :=
  s ≠ "" ∧ Forall dna_char (Str.chars s).

(** The normal form of a barcode: trimmed, then upper-cased. *)
Definition normalize (s : string) : string := Str.upper (Str.strip s).

(** Following the spec's words: valid iff non-empty after trimming and
    every character, after upper-casing, is one of A, C, G, T. *)
Definition is_valid (s : string) : Prop :=
  Str.strip s ≠ "" ∧ Forall dna_char (Str.chars (Str.upper (Str.strip s))).

Global Instance dna_char_dec c : Decision (dna_char c).
Proof. unfold dna_char. apply _. Defined.

Global Instance is_valid_dec s : Decision (is_valid s).
Proof. unfold is_valid. apply _. Defined.

Global Instance matches_ACGT_plus_dec s : Decision (matches_ACGT_plus s).
Proof. unfold matches_ACGT_plus. apply _. Defined.

(** The letters the validator accepts before upper-casing. *)
Definition accepted_char (c : ascii) : Prop :=
  dna_char c
  ∨ c = "a"%char ∨ c = "c"%char ∨ c = "g"%char ∨ c = "t"%char.

(** A text the validator accepts: after trimming it is non-empty and
    made of accepted letters. *)
Definition accepted (s : string) : Prop :=
  Str.strip s ≠ "" ∧ Forall accepted_char (Str.chars (Str.strip s)).

Global Instance accepted_char_dec c : Decision (accepted_char c).
Proof. unfold accepted_char. apply _. Defined.

Global Instance accepted_dec s : Decision (accepted s).
Proof. unfold accepted. apply _. Defined.

(** The one-character text ['\n']. *)
Definition LF : string := String Str.newline "".

(** [sep.join(pieces)] on character lists. *)
Fixpoint join_chars (sep : ascii) (pieces : list (list ascii)) : list ascii :=
  match pieces with
  | [] => []
  | [p] => p
  | p :: ps => p ++ sep :: join_chars sep ps
  end.

(** * Properties *)

(** ** Sanity checks on concrete inputs *)

Example hamming_ex1 : hamming_distance "ACGT" "ACGG" = Int 1.
Proof. reflexivity. Qed.

Example hamming_ex2 : hamming_distance "AC" "ACG" = Inf.
Proof. reflexivity. Qed.

Example validate_ex1 :
  validate_barcodes [" acgt "; "ACGN"; ""; "TT"] = (["ACGT"; "TT"], ["ACGN"; ""]).
Proof. reflexivity. Qed.

Example between_ex1 :
  length (check_barcodes_between_sets ["AAAA"] ["AAAA"; "TTTT"] 0 "Set 1" "Set 2") = 1%nat.
Proof. reflexivity. Qed.

Example within_loop_ex1 : within_loop ["ACGT"; "TGCA"] 3 = [].
Proof. reflexivity. Qed.

(** ** The distance function *)

Section Hamming.

Implicit Types (l k : list ascii) (bs : list bool).

Lemma sum_bools_from bs (a : Z) :
  fold_left (fun acc (b : bool) => acc + Z.b2z b) bs a = a + sum_bools bs.
Proof.
  unfold sum_bools. revert a.
  induction bs as [|b bs IH]; intros a; simpl; [lia|].
  rewrite (IH (a + Z.b2z b)), (IH (0 + Z.b2z b)). lia.
Qed.

Lemma sum_bools_cons (b : bool) bs :
  sum_bools (b :: bs) = Z.b2z b + sum_bools bs.
Proof. unfold sum_bools at 1. simpl. by rewrite sum_bools_from. Qed.

Lemma sum_bools_nonneg bs : 0 ≤ sum_bools bs.
Proof.
  induction bs as [|b bs IH]; [done|].
  rewrite sum_bools_cons. destruct b; simpl; lia.
Qed.

Lemma chars_length (s : string) : length (Str.chars s) = String.length s.
Proof. induction s as [|c s IH]; simpl; [done | by rewrite IH]. Qed.

Lemma len_eqb (s1 s2 : string) :
  (Str.len s1 =? Str.len s2) = bool_decide (String.length s1 = String.length s2).
Proof.
  unfold Str.len. case_bool_decide as H.
  - rewrite H. apply Z.eqb_refl.
  - apply Z.eqb_neq. lia.
Qed.

Lemma length_filter_shift (P : nat → Prop) `{!∀ i, Decision (P i)} (js : list nat) :
  length (filter P (S <$> js)) = length (filter (λ i, P (S i)) js).
Proof.
  induction js as [|j js IH]; [done|].
  rewrite fmap_cons, !filter_cons.
  destruct (decide (P (S j))); simpl; by rewrite IH.
Qed.

(** The sum over the zipped characters counts the differing indices. *)
Lemma sum_differs_positions l k :
  length l = length k →
  sum_bools (map differs (zip l k))
  = Z.of_nat (length (filter (λ i, l !! i ≠ k !! i) (seq 0 (length l)))).
Proof.
  revert k. induction l as [|c1 l IH]; intros [|c2 k] Hlen;
    simplify_eq/=; [done|].
  rewrite sum_bools_cons, (IH k) by done.
  rewrite <-fmap_S_seq.
  destruct (Ascii.eqb_spec c1 c2) as [->|Hne]; simpl.
  - rewrite filter_cons_False by (intros H; by apply H).
    by rewrite length_filter_shift.
  - rewrite filter_cons_True by (simpl; congruence).
    simpl length. rewrite length_filter_shift. simpl. lia.
Qed.

Lemma differs_zip_sym l k :
  map differs (zip l k) = map differs (zip k l).
Proof.
  revert k. induction l as [|c1 l IH]; intros [|c2 k]; simpl; [done..|].
  by rewrite IH, Ascii.eqb_sym.
Qed.

Lemma differs_zip_diag l : sum_bools (map differs (zip l l)) = 0.
Proof.
  induction l as [|c l IH]; [done|]. simpl.
  by rewrite sum_bools_cons, IH, Ascii.eqb_refl.
Qed.

Lemma hamming_distance_unfold (s1 s2 : string) :
  hamming_distance s1 s2 =
  if decide (String.length s1 = String.length s2)
  then Int (sum_bools (map differs (zip (Str.chars s1) (Str.chars s2))))
  else Inf.
Proof.
  unfold hamming_distance. rewrite len_eqb.
  case_bool_decide; by case_decide.
Qed.

End Hamming.

(** C4.  For two strings of equal length, [hamming_distance] is the
    number of index positions at which their characters differ; the
    distance of a string to itself is 0; and the distance of "ACGT" to
    "ACGG" is 1. *)
Theorem hamming_distance_counts_differing_positions (s1 s2 : string)
    (Hlen : String.length s1 = String.length s2) :
  hamming_distance s1 s2 = Int (Z.of_nat (length (differing_positions s1 s2)))
  ∧ (∀ s : string, hamming_distance s s = Int 0)
  ∧ hamming_distance "ACGT" "ACGG" = Int 1.
Proof.
  split_and!.
  - rewrite hamming_distance_unfold, decide_True by done.
    unfold differing_positions. rewrite <-chars_length.
    by rewrite sum_differs_positions by (by rewrite !chars_length).
  - intros s. rewrite hamming_distance_unfold, decide_True by done.
    by rewrite differs_zip_diag.
  - reflexivity.
Qed.

Lemma hamming_distance_counts_differing_positions_witness :
  hamming_distance "ACGTTGCA" "ACCTTGGA"
  = Int (Z.of_nat (length (differing_positions "ACGTTGCA" "ACCTTGGA")))
  ∧ length (differing_positions "ACGTTGCA" "ACCTTGGA") = 2%nat.
Proof.
  split.
  - apply (hamming_distance_counts_differing_positions "ACGTTGCA" "ACCTTGGA").
    reflexivity.
  - vm_compute. reflexivity.
Defined.

Lemma hamming_distance_comm (a b : string) :
  hamming_distance a b = hamming_distance b a.
Proof.
  rewrite !hamming_distance_unfold.
  destruct (decide (String.length a = String.length b)) as [Hab|Hab].
  - rewrite decide_True by done. by rewrite differs_zip_sym.
  - by rewrite decide_False by congruence.
Qed.

(** C8.  [hamming_distance] is symmetric, whatever the lengths of the
    two strings. *)
Theorem hamming_distance_symmetric (a b : string) :
  hamming_distance a b = hamming_distance b a.
Proof. apply hamming_distance_comm. Qed.

(** ** The two loops as filters *)

Section Loops.

Context {A B : Type}.
Implicit Types (l : list A) (acc : list B).

(** A loop that appends [f x] whenever [p x] holds. *)
Lemma fold_left_append_if (p : A → bool) (f : A → B) l acc :
  fold_left (fun acc x => if p x then acc ++ [f x] else acc) l acc
  = acc ++ (f <$> filter (λ x, p x = true) l).
Proof.
  revert acc. induction l as [|x l IH]; intros acc; simpl.
  - by rewrite app_nil_r.
  - rewrite IH, filter_cons. destruct (p x) eqn:Hp.
    + rewrite decide_True by done. by rewrite <-app_assoc.
    + by rewrite decide_False by done.
Qed.

Lemma fold_left_pointwise (f g : list B → A → list B) l acc :
  (∀ acc x, f acc x = g acc x) → fold_left f l acc = fold_left g l acc.
Proof.
  intros Hfg. revert acc. induction l as [|x l IH]; intros acc; simpl; [done|].
  by rewrite Hfg, IH.
Qed.

Lemma list_filter_fmap (P : B → Prop) `{!∀ y, Decision (P y)} (f : A → B) l :
  filter P (f <$> l) = f <$> filter (λ x, P (f x)) l.
Proof.
  induction l as [|x l IH]; [done|].
  rewrite fmap_cons, !filter_cons, IH. by destruct (decide (P (f x))).
Qed.

Lemma length_filter_mono (P Q : A → Prop)
    `{!∀ x, Decision (P x)} `{!∀ x, Decision (Q x)} l :
  (∀ x, P x → Q x) → (length (filter P l) ≤ length (filter Q l))%nat.
Proof.
  intros HPQ. induction l as [|x l IH]; [done|].
  rewrite !filter_cons.
  destruct (decide (P x)) as [HP|HP].
  - rewrite decide_True by auto. simpl. lia.
  - destruct (decide (Q x)); simpl; lia.
Qed.

End Loops.

Lemma within_loop_filter (barcode_list : list string) (t : Z) :
  within_loop barcode_list t
  = within_record_of <$> filter (clashing t) (combinations2 barcode_list).
Proof.
  unfold within_loop.
  rewrite <-(app_nil_l (_ <$> _)),
    <-(fold_left_append_if
         (λ p, number_le (hamming_distance p.1 p.2) t) within_record_of).
  apply fold_left_pointwise. by intros acc [bc1 bc2].
Qed.

Lemma between_loop_from (set1 set2 : list string) (t : Z) (n1 n2 : string)
    (acc : list record) :
  fold_left
    (fun (clashes : list record) bc1 =>
       fold_left
         (fun (clashes : list record) bc2 =>
            let distance := hamming_distance bc1 bc2 in
            if number_le distance t
            then clashes ++ [between_record n1 n2 bc1 bc2 distance]
            else clashes)
         set2 clashes)
    set1 acc
  = acc ++ (between_record_of n1 n2 <$> filter (clashing t) (cprod set1 set2)).
Proof.
  revert acc. induction set1 as [|bc1 set1 IH]; intros acc; simpl; cbv zeta.
  - by rewrite app_nil_r.
  - rewrite (fold_left_append_if
               (λ bc2, number_le (hamming_distance bc1 bc2) t)
               (λ bc2, between_record n1 n2 bc1 bc2 (hamming_distance bc1 bc2))).
    cbv zeta in IH. rewrite IH, <-app_assoc. f_equal.
    change (cprod (bc1 :: set1) set2)
      with ((pair bc1 <$> set2) ++ cprod set1 set2).
    rewrite filter_app, fmap_app. f_equal.
    rewrite list_filter_fmap, <-list_fmap_compose. done.
Qed.

Lemma between_sets_filter (set1 set2 : list string) (t : Z) (n1 n2 : string) :
  check_barcodes_between_sets set1 set2 t n1 n2
  = between_record_of n1 n2 <$> filter (clashing t) (cprod set1 set2).
Proof. unfold check_barcodes_between_sets. by rewrite between_loop_from. Qed.

(** ** The cross-set detector *)

Section Lookups.

Context {A : Type} `{!Inhabited A}.

Lemma list_as_lookups (l : list A) :
  l = (λ i, l !!! i) <$> seq 0 (length l).
Proof.
  apply list_eq. intros i. rewrite list_lookup_fmap.
  destruct (decide (i < length l)%nat) as [Hi|Hi].
  - rewrite lookup_seq_lt by done. simpl.
    by apply list_lookup_lookup_total_lt.
  - rewrite lookup_seq_ge, lookup_ge_None_2 by lia. done.
Qed.

Lemma filter_ext_elem (P Q : A → Prop)
    `{!∀ x, Decision (P x)} `{!∀ x, Decision (Q x)} (l : list A) :
  (∀ x, x ∈ l → P x ↔ Q x) → filter P l = filter Q l.
Proof.
  induction l as [|x l IH]; intros HPQ; [done|].
  rewrite !filter_cons, IH by (intros; apply HPQ; by right).
  destruct (decide (P x)) as [HP|HP].
  - rewrite decide_True; [done|]. apply HPQ; [by left | done].
  - rewrite decide_False; [done|]. intros HQ. apply HP, HPQ; [by left | done].
Qed.

End Lookups.

Section CrossPairs.

Context {A B : Type} `{!Inhabited A, !Inhabited B}.

Lemma cprod_fmap {A' B'} (f : A' → A) (g : B' → B) (l : list A') (k : list B') :
  cprod (f <$> l) (g <$> k) = prod_map f g <$> cprod l k.
Proof.
  induction l as [|x l IH]; [done|].
  change (cprod (f <$> x :: l) (g <$> k))
    with ((pair (f x) <$> (g <$> k)) ++ cprod (f <$> l) (g <$> k)).
  change (cprod (x :: l) k) with ((pair x <$> k) ++ cprod l k).
  rewrite fmap_app, IH. f_equal.
  by rewrite <-!list_fmap_compose.
Qed.

Lemma cprod_as_lookups (l : list A) (k : list B) :
  cprod l k
  = (λ ij, (l !!! ij.1, k !!! ij.2)) <$> index_pairs (length l) (length k).
Proof.
  unfold index_pairs.
  rewrite (list_as_lookups l) at 1. rewrite (list_as_lookups k) at 1.
  by rewrite cprod_fmap.
Qed.

End CrossPairs.

Lemma elem_of_index_pairs (n m : nat) (ij : nat * nat) :
  ij ∈ index_pairs n m ↔ (ij.1 < n)%nat ∧ (ij.2 < m)%nat.
Proof.
  unfold index_pairs. rewrite list_elem_of_cprod, !elem_of_seq. lia.
Qed.

Lemma NoDup_index_pairs (n m : nat) : NoDup (index_pairs n m).
Proof.
  unfold index_pairs. generalize (NoDup_seq 0 m). generalize (seq 0 m) as k.
  intros k Hk. generalize (NoDup_seq 0 n). generalize (seq 0 n) as l.
  induction l as [|i l IH]; intros Hl; [constructor|].
  change (cprod (i :: l) k) with ((pair i <$> k) ++ cprod l k).
  apply NoDup_cons in Hl as [Hi Hl]. apply NoDup_app. split_and!.
  - apply NoDup_fmap_2; [|done]. by intros ?? [=].
  - intros [i' j] (j' & Heq & _)%list_elem_of_fmap. simplify_eq.
    rewrite list_elem_of_cprod. by intros [? _].
  - by apply IH.
Qed.

Lemma between_sets_index_pairs (set1 set2 : list string) (t : Z) (n1 n2 : string) :
  check_barcodes_between_sets set1 set2 t n1 n2
  = (λ ij, between_record_of n1 n2 (set1 !!! ij.1, set2 !!! ij.2))
      <$> filter (clash_at set1 set2 t)
                 (index_pairs (length set1) (length set2)).
Proof.
  rewrite between_sets_filter, cprod_as_lookups, list_filter_fmap.
  rewrite <-list_fmap_compose. f_equal.
  apply filter_ext_elem. intros [i j] [Hi Hj]%elem_of_index_pairs.
  unfold clash_at; simpl in *.
  by rewrite !list_lookup_lookup_total_lt by done.
Qed.

Lemma between_sets_records_at (set1 set2 : list string) (t : Z) (n1 n2 : string) :
  Forall2 (clash_record_at set1 set2 t n1 n2)
          (check_barcodes_between_sets set1 set2 t n1 n2)
          (filter (clash_at set1 set2 t)
                  (index_pairs (length set1) (length set2))).
Proof.
  rewrite between_sets_index_pairs. apply Forall2_fmap_l, Forall_Forall2_diag.
  apply Forall_forall.
  intros [i j] [Hc [Hi Hj]%elem_of_index_pairs]%list_elem_of_filter.
  unfold clash_at in Hc. simpl in *. exists (set1 !!! i), (set2 !!! j). simpl.
  rewrite !list_lookup_lookup_total_lt in Hc |- * by done. done.
Qed.

(** C2.  The records of [check_barcodes_between_sets] are, in order, the
    records of the position pairs [(i, j)] (position [i] of set 1,
    position [j] of set 2, every position pair listed once) whose
    barcodes are within the threshold: one record per such draw, counted
    with multiplicity, and nothing else.  Each record pairs a barcode of
    set 1 with one of set 2, so that a set compared with an empty set
    yields no record at all. *)
Theorem between_sets_one_record_per_cross_pair
    (set1 set2 : list string) (t : Z) (n1 n2 : string) :
  Forall2 (record_at set1 set2 n1 n2)
          (check_barcodes_between_sets set1 set2 t n1 n2)
          (filter (clash_at set1 set2 t)
                  (index_pairs (length set1) (length set2)))
  ∧ NoDup (index_pairs (length set1) (length set2))
  ∧ (∀ ij, ij ∈ index_pairs (length set1) (length set2)
           ↔ is_Some (set1 !! ij.1) ∧ is_Some (set2 !! ij.2))
  ∧ check_barcodes_between_sets set1 [] t n1 n2 = []
  ∧ check_barcodes_between_sets [] set2 t n1 n2 = [].
Proof.
  split_and!.
  - eapply Forall2_impl; [apply between_sets_records_at|].
    intros r ij (a & b & Ha & Hb & _ & Hr). by exists a, b.
  - apply NoDup_index_pairs.
  - intros ij. by rewrite elem_of_index_pairs, !lookup_lt_is_Some.
  - rewrite between_sets_filter.
    replace (cprod set1 []) with (@nil (string * string)); [done|].
    induction set1; [done|]. done.
  - by rewrite between_sets_filter.
Qed.

Example between_sets_multiplicity :
  length (check_barcodes_between_sets ["AAAA"; "AAAA"] ["AAAA"; "AAAT"; "TTTT"] 1 "P5" "P7")
  = 4%nat.
Proof. reflexivity. Qed.

(** ** The within-set detector *)

Section Combinations.

Context {A : Type} `{!EqDecision A}.
Implicit Types (l k : list A) (a b x : A).

Lemma combinations2_cons x l :
  combinations2 (x :: l) = (pair x <$> l) ++ combinations2 l.
Proof. done. Qed.

Lemma elem_of_combinations2 l a b :
  (a, b) ∈ combinations2 l → a ∈ l ∧ b ∈ l.
Proof.
  induction l as [|x l IH]; [by intros ?%not_elem_of_nil|].
  rewrite combinations2_cons, elem_of_app, list_elem_of_fmap.
  intros [(y & [= -> ->] & Hy)|Hin].
  - split; [by left | by right].
  - destruct (IH Hin). split; by right.
Qed.

Lemma combinations2_distinct l a b :
  NoDup l → (a, b) ∈ combinations2 l → a ≠ b.
Proof.
  induction l as [|x l IH]; [by intros _ ?%not_elem_of_nil|].
  intros [Hx Hl]%NoDup_cons.
  rewrite combinations2_cons, elem_of_app, list_elem_of_fmap.
  intros [(y & [= -> ->] & Hy)|Hin]; [|by apply IH].
  by intros ->.
Qed.

Lemma length_filter_none (P : A → Prop) `{!∀ x, Decision (P x)} l :
  (∀ x, x ∈ l → ¬ P x) → length (filter P l) = 0%nat.
Proof.
  induction l as [|x l IH]; intros HP; [done|].
  rewrite filter_cons_False by (apply HP; by left).
  apply IH. intros y Hy. apply HP. by right.
Qed.

Lemma length_filter_eq_NoDup l b :
  NoDup l → b ∈ l → length (filter (λ y, y = b) l) = 1%nat.
Proof.
  induction l as [|x l IH]; [by intros _ ?%not_elem_of_nil|].
  intros [Hx Hl]%NoDup_cons Hb. destruct (decide (x = b)) as [->|Hne].
  - rewrite filter_cons_True by done. simpl.
    rewrite length_filter_none; [done|]. by intros y Hy ->.
  - rewrite filter_cons_False by done. apply IH; [done|].
    apply elem_of_cons in Hb as [->|Hb]; done.
Qed.

End Combinations.

Section PairCount.

Context {A : Type} `{!EqDecision A}.
Implicit Types (l k : list A) (a b x : A).

(** In the pairs of a duplicate-free list, an unordered pair of two
    distinct elements occurs once, in one of its two orientations. *)
Lemma combinations2_once l a b :
  NoDup l → a ∈ l → b ∈ l → a ≠ b →
  length (filter (λ p, p = (a, b) ∨ p = (b, a)) (combinations2 l)) = 1%nat.
Proof.
  induction l as [|x l IH]; [by intros _ ?%not_elem_of_nil|].
  intros [Hx Hl]%NoDup_cons Ha Hb Hab.
  rewrite combinations2_cons, filter_app, length_app, list_filter_fmap, length_fmap.
  destruct (decide (x = a)) as [->|Hxa]; [|destruct (decide (x = b)) as [->|Hxb]].
  - apply elem_of_cons in Hb as [->|Hb]; [done|].
    rewrite (filter_ext_elem _ (λ y, y = b))
      by (intros y _; split; [intros [?|?]; by simplify_eq | intros ->; by left]).
    rewrite length_filter_eq_NoDup by done.
    rewrite length_filter_none; [done|].
    intros [u v] [Hu Hv]%elem_of_combinations2 [[= -> ->]|[= -> ->]]; done.
  - apply elem_of_cons in Ha as [->|Ha]; [done|].
    rewrite (filter_ext_elem _ (λ y, y = a))
      by (intros y _; split; [intros [?|?]; by simplify_eq | intros ->; by right]).
    rewrite length_filter_eq_NoDup by done.
    rewrite length_filter_none; [done|].
    intros [u v] [Hu Hv]%elem_of_combinations2 [[= -> ->]|[= -> ->]]; done.
  - apply elem_of_cons in Ha as [->|Ha]; [done|].
    apply elem_of_cons in Hb as [->|Hb]; [done|].
    rewrite length_filter_none by (intros y _ [[= ]|[= ]]; done).
    by apply IH.
Qed.

(** The number of pairs satisfying a symmetric test does not depend on
    the order of the list. *)
Lemma combinations2_count_perm (Q : A * A → Prop) `{!∀ p, Decision (Q p)} l k :
  (∀ a b, Q (a, b) → Q (b, a)) →
  l ≡ₚ k →
  length (filter Q (combinations2 l)) = length (filter Q (combinations2 k)).
Proof.
  intros Hsym Hperm. induction Hperm as [|x l k Hlk IH|x y l|l k m _ IH1 _ IH2].
  - done.
  - rewrite !combinations2_cons, !filter_app, !length_app, IH.
    rewrite !list_filter_fmap, !length_fmap. by rewrite Hlk.
  - rewrite !combinations2_cons, !fmap_cons, !filter_app, !length_app.
    rewrite !filter_cons.
    assert (Q (y, x) ↔ Q (x, y)) as Hxy by (split; apply Hsym).
    destruct (decide (Q (y, x))) as [H1|H1], (decide (Q (x, y))) as [H2|H2];
      try tauto; simpl; lia.
  - congruence.
Qed.

End PairCount.

Lemma clashing_sym (t : Z) (a b : string) : clashing t (a, b) → clashing t (b, a).
Proof. unfold clashing; simpl. by rewrite (hamming_distance_comm b a). Qed.

Lemma clashing_mono (t1 t2 : Z) (p : string * string) :
  t1 ≤ t2 → clashing t1 p → clashing t2 p.
Proof.
  unfold clashing. intros Hle. destruct (hamming_distance p.1 p.2) as [z|]; simpl; [|done].
  rewrite !Z.leb_le. lia.
Qed.

(** ** Clash records: fields *)

Lemma within_record_fields (a b : string) (d : number) :
  within_record a b d !! "Barcode 1" = Some (FStr a)
  ∧ within_record a b d !! "Barcode 2" = Some (FStr b)
  ∧ within_record a b d !! "Hamming Distance" = Some (FNum d).
Proof. unfold within_record, dict_display. simpl. by simplify_map_eq. Qed.

Lemma within_record_inj (a b a' b' : string) (d d' : number) :
  within_record a b d = within_record a' b' d' → a = a' ∧ b = b' ∧ d = d'.
Proof.
  intros Heq.
  destruct (within_record_fields a b d) as (H1 & H2 & H3).
  destruct (within_record_fields a' b' d') as (H1' & H2' & H3').
  rewrite Heq in H1, H2, H3. by simplify_eq.
Qed.

Lemma same_pair_record_of (a b : string) (p : string * string) :
  same_pair_record a b (within_record_of p) ↔ p = (a, b) ∨ p = (b, a).
Proof.
  unfold same_pair_record, within_record_of. destruct p as [u v]; simpl. split.
  - intros [H|H]; apply within_record_inj in H as (-> & -> & _); auto.
  - intros [[= -> ->]|[= -> ->]]; auto.
Qed.

Lemma list_of_set_exists (barcodes : list string) :
  list_of_set barcodes (remove_dups barcodes).
Proof.
  split_and!; [apply NoDup_remove_dups|..];
    intros x; by rewrite elem_of_remove_dups.
Qed.

Lemma list_of_set_perm (barcodes l k : list string) :
  list_of_set barcodes l → list_of_set barcodes k → l ≡ₚ k.
Proof.
  intros (Hl & Hl1 & Hl2) (Hk & Hk1 & Hk2).
  apply NoDup_Permutation; [done..|]. intros x. split; auto.
Qed.

(** C1.  [check_barcodes_within_set] returns a pair
    [(clashes, unique_list)]; [unique_list] holds each distinct input
    barcode once; every record of [clashes] is the record of two distinct
    barcodes of [unique_list] within the threshold, with their distance;
    every unordered pair of distinct barcodes of [unique_list] within the
    threshold has exactly one record; at most one unique barcode gives no
    clash; and ["ACGT", "ACGA"] with threshold 1 gives exactly one record,
    of distance 1. *)
Theorem within_set_one_record_per_close_pair (barcodes : list string) (t : Z) :
  (∃ result, check_barcodes_within_set barcodes t result)
  ∧ ∀ clashes unique_list,
      check_barcodes_within_set barcodes t (clashes, unique_list) →
      (NoDup unique_list ∧ ∀ x, x ∈ unique_list ↔ x ∈ barcodes)
      ∧ (∀ r, r ∈ clashes →
           ∃ a b, a ∈ unique_list ∧ b ∈ unique_list ∧ a ≠ b
                  ∧ number_le (hamming_distance a b) t = true
                  ∧ r = within_record a b (hamming_distance a b))
      ∧ (∀ a b, a ∈ unique_list → b ∈ unique_list → a ≠ b →
           number_le (hamming_distance a b) t = true →
           length (filter (same_pair_record a b) clashes) = 1%nat)
      ∧ ((length unique_list ≤ 1)%nat → clashes = [])
      ∧ (barcodes = ["ACGT"; "ACGA"] → t = 1 →
           ∃ r, clashes = [r]
                ∧ r !! "Hamming Distance" = Some (FNum (Int 1))).
Proof.
  split.
  { exists (within_loop (remove_dups barcodes) t, remove_dups barcodes).
    split; [apply list_of_set_exists | done]. }
  intros clashes ul [Hset Hloop]; simpl in *.
  rewrite within_loop_filter in Hloop. subst clashes.
  pose proof Hset as (Hnd & Hsub1 & Hsub2).
  split_and!.
  - done.
  - intros x; split; auto.
  - intros r (p & -> & [Hp Hin]%list_elem_of_filter)%list_elem_of_fmap.
    destruct p as [a b]. exists a, b.
    pose proof (elem_of_combinations2 _ _ _ Hin) as [Ha Hb].
    pose proof (combinations2_distinct _ _ _ Hnd Hin). done.
  - intros a b Ha Hb Hab Hclash.
    rewrite list_filter_fmap, length_fmap, list_filter_filter.
    rewrite (filter_ext_elem _ (λ p, p = (a, b) ∨ p = (b, a))).
    + by apply combinations2_once.
    + intros p _. rewrite same_pair_record_of. split; [tauto|].
      intros Hp. split; [done|].
      destruct Hp as [->| ->]; [done | by apply clashing_sym].
  - intros Hlen. destruct ul as [|x [|y ul]]; simpl in *; [done..|lia].
  - intros -> ->.
    assert (ul ≡ₚ ["ACGT"; "ACGA"]) as Hperm.
    { apply (list_of_set_perm ["ACGT"; "ACGA"]); [done|].
      exact (list_of_set_exists ["ACGT"; "ACGA"]). }
    apply Permutation_sym, Permutation.Permutation_length_2_inv in Hperm
      as [-> | ->]; (eexists; split; [reflexivity|]);
      apply within_record_fields.
Qed.

Lemma within_set_one_record_per_close_pair_witness :
  check_barcodes_within_set ["ACGT"; "ACGA"] 1
    (within_loop ["ACGA"; "ACGT"] 1, ["ACGA"; "ACGT"])
  ∧ ∃ r, within_loop ["ACGA"; "ACGT"] 1 = [r]
         ∧ r !! "Hamming Distance" = Some (FNum (Int 1)).
Proof.
  assert (check_barcodes_within_set ["ACGT"; "ACGA"] 1
            (within_loop ["ACGA"; "ACGT"] 1, ["ACGA"; "ACGT"])) as Hret.
  { refine (bool_decide_unpack _ _). vm_compute. exact I. }
  split; [exact Hret|].
  destruct (within_set_one_record_per_close_pair ["ACGT"; "ACGA"] 1) as [_ Hall].
  destruct (Hall _ _ Hret) as (_ & _ & _ & _ & Hex).
  apply Hex; reflexivity.
Defined.

(** C6.  With the inputs fixed, raising the threshold never lowers the
    number of clash records, for either detector; for the within-set
    detector this holds whatever orders the two calls give the unique
    barcodes. *)
Theorem clash_count_monotone (t1 t2 : Z) (Hle : t1 ≤ t2) :
  (∀ barcodes clashes1 unique1 clashes2 unique2,
     check_barcodes_within_set barcodes t1 (clashes1, unique1) →
     check_barcodes_within_set barcodes t2 (clashes2, unique2) →
     (length clashes1 ≤ length clashes2)%nat)
  ∧ (∀ set1 set2 set1_name set2_name,
       (length (check_barcodes_between_sets set1 set2 t1 set1_name set2_name)
        ≤ length (check_barcodes_between_sets set1 set2 t2 set1_name set2_name))%nat).
Proof.
  split.
  - intros barcodes c1 u1 c2 u2 [Hs1 Hc1] [Hs2 Hc2]; simpl in *; subst c1 c2.
    rewrite !within_loop_filter, !length_fmap.
    rewrite (combinations2_count_perm (clashing t2) u2 u1)
      by (eauto using clashing_sym, list_of_set_perm).
    apply length_filter_mono. intros p. by apply clashing_mono.
  - intros set1 set2 n1 n2. rewrite !between_sets_filter, !length_fmap.
    apply length_filter_mono. intros p. by apply clashing_mono.
Qed.

Lemma clash_count_monotone_witness :
  (length (within_loop ["ACGT"; "ACGA"; "TGCA"] 0)
   ≤ length (within_loop ["TGCA"; "ACGA"; "ACGT"] 1))%nat
  ∧ (length (check_barcodes_between_sets ["AAAA"; "AAAT"] ["AAAA"; "AATT"; "TTTT"] 0 "Set 1" "Set 2")
     ≤ length (check_barcodes_between_sets ["AAAA"; "AAAT"] ["AAAA"; "AATT"; "TTTT"] 2 "Set 1" "Set 2"))%nat.
Proof.
  assert (0 ≤ 1) as Hle by lia.
  destruct (clash_count_monotone 0 1 Hle) as [Hwithin _].
  split.
  - apply (Hwithin ["ACGT"; "ACGT"; "ACGA"; "TGCA"]
             _ ["ACGT"; "ACGA"; "TGCA"] _ ["TGCA"; "ACGA"; "ACGT"]).
    + refine (bool_decide_unpack _ _). vm_compute. exact I.
    + refine (bool_decide_unpack _ _). vm_compute. exact I.
  - apply (clash_count_monotone 0 2); lia.
Defined.

(** ** Length mismatch *)

Lemma hamming_distance_length_ne (s1 s2 : string) :
  String.length s1 ≠ String.length s2 → hamming_distance s1 s2 = Inf.
Proof. intros Hne. by rewrite hamming_distance_unfold, decide_False. Qed.

Lemma clashing_same_length (t : Z) (a b : string) :
  clashing t (a, b) → String.length a = String.length b.
Proof.
  unfold clashing; simpl. intros Hle.
  destruct (decide (String.length a = String.length b)) as [|Hne]; [done|].
  by rewrite hamming_distance_length_ne in Hle.
Qed.

(** C3.  For two strings of different lengths [hamming_distance] is
    [float('inf')], which is not [<=] any integer threshold; hence every
    record emitted by either detector belongs to two barcodes of the same
    length. *)
Theorem length_mismatch_never_clashes :
  (∀ (s1 s2 : string) (t : Z),
     String.length s1 ≠ String.length s2 →
     hamming_distance s1 s2 = Inf ∧ number_le (hamming_distance s1 s2) t = false)
  ∧ (∀ barcodes t clashes unique_list,
       check_barcodes_within_set barcodes t (clashes, unique_list) →
       ∀ r, r ∈ clashes →
         ∃ a b, r = within_record a b (hamming_distance a b)
                ∧ String.length a = String.length b)
  ∧ (∀ set1 set2 t set1_name set2_name,
       Forall2
         (λ r ij, ∃ a b, set1 !! ij.1 = Some a ∧ set2 !! ij.2 = Some b
                         ∧ String.length a = String.length b
                         ∧ r = between_record set1_name set2_name a b
                                 (hamming_distance a b))
         (check_barcodes_between_sets set1 set2 t set1_name set2_name)
         (filter (clash_at set1 set2 t)
                 (index_pairs (length set1) (length set2)))).
Proof.
  split_and!.
  - intros s1 s2 t Hne. by rewrite hamming_distance_length_ne.
  - intros barcodes t clashes ul [_ Hloop] r; simpl in *. subst clashes.
    rewrite within_loop_filter.
    intros ([a b] & -> & [Hp _]%list_elem_of_filter)%list_elem_of_fmap.
    exists a, b. split; [done|]. by eapply clashing_same_length.
  - intros set1 set2 t n1 n2.
    eapply Forall2_impl; [apply between_sets_records_at|].
    intros r ij (a & b & Ha & Hb & Hc & Hr). exists a, b.
    split_and!; [done..| |done]. by eapply clashing_same_length.
Qed.

Lemma length_mismatch_never_clashes_witness :
  (hamming_distance "AC" "ACG" = Inf
   ∧ number_le (hamming_distance "AC" "ACG") 1000 = false)
  ∧ within_loop ["AC"; "ACG"; "AG"] 1000
    = [within_record "AC" "AG" (Int 1)].
Proof.
  destruct length_mismatch_never_clashes as (Hinf & Hwithin & _).
  split.
  - apply (Hinf "AC" "ACG" 1000). simpl. lia.
  - assert (check_barcodes_within_set ["AC"; "ACG"; "AG"] 1000
              (within_loop ["AC"; "ACG"; "AG"] 1000, ["AC"; "ACG"; "AG"])) as Hret.
    { refine (bool_decide_unpack _ _). vm_compute. exact I. }
    pose proof (Hwithin _ _ _ _ Hret) as _.
    vm_compute. reflexivity.
Defined.

(** ** Record keys of the cross-set detector *)

Lemma chars_app (s1 s2 : string) :
  Str.chars (s1 +:+ s2) = Str.chars s1 ++ Str.chars s2.
Proof. induction s1 as [|c s1 IH]; simpl; [done | by rewrite IH]. Qed.

Lemma chars_inj (s1 s2 : string) : Str.chars s1 = Str.chars s2 → s1 = s2.
Proof.
  intros H. apply (f_equal Str.of_chars) in H.
  unfold Str.of_chars, Str.chars in H.
  by rewrite !String.string_of_list_ascii_of_string in H.
Qed.

(** No label makes the barcode key collide with the distance key. *)
Lemma barcode_key_ne_distance (name : string) :
  name +:+ " Barcode" ≠ "Hamming Distance".
Proof.
  intros H. apply (f_equal Str.chars) in H. rewrite chars_app in H.
  assert (length (Str.chars name) = 8%nat) as Hlen.
  { apply (f_equal length) in H. rewrite length_app in H. simpl in H. lia. }
  apply (f_equal (drop 8)) in H. rewrite drop_app_length' in H by done.
  discriminate H.
Qed.

Lemma barcode_key_inj (n1 n2 : string) :
  n1 +:+ " Barcode" = n2 +:+ " Barcode" → n1 = n2.
Proof.
  intros H. apply (f_equal Str.chars) in H. rewrite !chars_app in H.
  apply app_inv_tail in H. by apply chars_inj.
Qed.

Lemma between_record_distinct_labels (n1 n2 a b : string) (d : number) :
  n1 ≠ n2 →
  size (between_record n1 n2 a b d) = 3%nat
  ∧ between_record n1 n2 a b d !! (n1 +:+ " Barcode") = Some (FStr a)
  ∧ between_record n1 n2 a b d !! (n2 +:+ " Barcode") = Some (FStr b)
  ∧ between_record n1 n2 a b d !! "Hamming Distance" = Some (FNum d).
Proof.
  intros Hne. unfold between_record, dict_display; simpl.
  assert (n1 +:+ " Barcode" ≠ n2 +:+ " Barcode") by (by intros ?%barcode_key_inj).
  pose proof (barcode_key_ne_distance n1). pose proof (barcode_key_ne_distance n2).
  split_and!.
  - rewrite !map_size_insert_None, map_size_empty; [done|..]; by simplify_map_eq.
  - by simplify_map_eq.
  - by simplify_map_eq.
  - by simplify_map_eq.
Qed.

Lemma between_record_same_label (name a b : string) (d : number) :
  between_record name name a b d
  = dict_display [(name +:+ " Barcode", FStr b); ("Hamming Distance", FNum d)]
  ∧ size (between_record name name a b d) = 2%nat
  ∧ between_record name name a b d !! (name +:+ " Barcode") = Some (FStr b)
  ∧ between_record name name a b d !! "Hamming Distance" = Some (FNum d).
Proof.
  unfold between_record, dict_display; simpl.
  pose proof (barcode_key_ne_distance name).
  split_and!.
  - by rewrite insert_insert_eq.
  - rewrite insert_insert_eq.
    rewrite !map_size_insert_None, map_size_empty; [done|..]; by simplify_map_eq.
  - by simplify_map_eq.
  - by simplify_map_eq.
Qed.

(** C10.  When the two labels are the same string, the two barcode items
    of the record have the same key: every emitted record has two fields,
    the barcode field holds the barcode of set 2, and the record does not
    depend on the barcode of set 1 that was compared. *)
Theorem equal_labels_records_lose_first_barcode
    (set1 set2 : list string) (t : Z) (set1_name set2_name : string)
    (Hsame : set1_name = set2_name) :
  Forall2
    (λ r ij, ∃ a b, set1 !! ij.1 = Some a ∧ set2 !! ij.2 = Some b
       ∧ size r = 2%nat
       ∧ r !! (set2_name +:+ " Barcode") = Some (FStr b)
       ∧ r !! "Hamming Distance" = Some (FNum (hamming_distance a b))
       ∧ r = dict_display [(set2_name +:+ " Barcode", FStr b);
                           ("Hamming Distance", FNum (hamming_distance a b))])
    (check_barcodes_between_sets set1 set2 t set1_name set2_name)
    (filter (clash_at set1 set2 t) (index_pairs (length set1) (length set2)))
  ∧ (∀ a a' b d,
       between_record set1_name set2_name a b d
       = between_record set1_name set2_name a' b d).
Proof.
  subst set1_name. split.
  - eapply Forall2_impl; [apply between_sets_records_at|].
    intros r ij (a & b & Ha & Hb & _ & ->). exists a, b.
    destruct (between_record_same_label set2_name a b (hamming_distance a b))
      as (? & ? & ? & ?).
    done.
  - intros a a' b d.
    destruct (between_record_same_label set2_name a b d) as [-> _].
    by destruct (between_record_same_label set2_name a' b d) as [-> _].
Qed.

Lemma equal_labels_records_lose_first_barcode_witness :
  check_barcodes_between_sets ["AAAA"] ["AAAT"] 1 "Set" "Set"
  = [dict_display [("Set Barcode", FStr "AAAT");
                   ("Hamming Distance", FNum (Int 1))]]
  ∧ (∀ a a' b d, between_record "Set" "Set" a b d = between_record "Set" "Set" a' b d).
Proof.
  split.
  - vm_compute. reflexivity.
  - apply (equal_labels_records_lose_first_barcode ["AAAA"] ["AAAT"] 1 "Set" "Set").
    reflexivity.
Defined.

(** ** The validator *)

Section Validator.

Implicit Types (s : string) (l : list ascii) (c : ascii).

Lemma chars_of_chars l : Str.chars (Str.of_chars l) = l.
Proof. apply String.list_ascii_of_string_of_list_ascii. Qed.

Lemma of_chars_chars s : Str.of_chars (Str.chars s) = s.
Proof. apply String.string_of_list_ascii_of_string. Qed.

Lemma truthy_nonempty s : Str.truthy s = true ↔ s ≠ "".
Proof. by destruct s. Qed.

Lemma truthy_upper s : Str.truthy (Str.upper s) = Str.truthy s.
Proof. by destruct s. Qed.

Lemma char_in_ACGT c : Str.char_in c "ACGT" = true ↔ dna_char c.
Proof.
  unfold Str.char_in, dna_char. simpl.
  rewrite !orb_true_iff, !Ascii.eqb_eq. intuition discriminate.
Qed.

Lemma forallb_char_in l :
  forallb (fun c => Str.char_in c "ACGT") l = true ↔ Forall dna_char l.
Proof.
  induction l as [|c l IH]; simpl.
  - split; [constructor | done].
  - rewrite andb_true_iff, Forall_cons, IH, char_in_ACGT. done.
Qed.

(** The test of the [if] in the loop body. *)
Lemma valid_test s :
  Str.truthy (normalize s)
  && forallb (fun c => Str.char_in c "ACGT") (Str.chars (normalize s)) = true
  ↔ is_valid s.
Proof.
  unfold normalize, is_valid.
  by rewrite andb_true_iff, truthy_upper, truthy_nonempty, forallb_char_in.
Qed.

Lemma validate_loop_from (barcodes valid invalid : list string) :
  fold_left
    (fun '((valid, invalid) : list string * list string) bc =>
       let bc_clean := Str.upper (Str.strip bc) in
       if Str.truthy bc_clean
          && forallb (fun c => Str.char_in c "ACGT") (Str.chars bc_clean)
       then (valid ++ [bc_clean], invalid)
       else (valid, invalid ++ [bc]))
    barcodes (valid, invalid)
  = (valid ++ (normalize <$> filter is_valid barcodes),
     invalid ++ filter (λ s, ¬ is_valid s) barcodes).
Proof.
  revert valid invalid.
  induction barcodes as [|bc barcodes IH]; intros valid invalid; simpl.
  - by rewrite !app_nil_r.
  - cbv zeta. fold (normalize bc). rewrite !filter_cons.
    destruct (decide (is_valid bc)) as [Hv|Hv].
    + rewrite (proj2 (valid_test bc) Hv), IH, <-app_assoc.
      by rewrite decide_False by tauto.
    + destruct (_ && _) eqn:Htest; [by apply valid_test in Htest|].
      rewrite IH, <-app_assoc. by rewrite decide_True by done.
Qed.

Lemma validate_barcodes_filter (barcodes : list string) :
  validate_barcodes barcodes
  = (normalize <$> filter is_valid barcodes,
     filter (λ s, ¬ is_valid s) barcodes).
Proof. unfold validate_barcodes. by rewrite validate_loop_from. Qed.

Lemma is_valid_normalize_matches s : is_valid s → matches_ACGT_plus (normalize s).
Proof.
  intros [Hne Hall]. split; [|done].
  apply truthy_nonempty. unfold normalize.
  by rewrite truthy_upper, truthy_nonempty.
Qed.

Lemma length_filter_partition {A} (P : A → Prop) `{!∀ x, Decision (P x)} (l : list A) :
  (length (filter P l) + length (filter (λ x, ¬ P x) l) = length l)%nat.
Proof.
  induction l as [|x l IH]; [done|]. rewrite !filter_cons.
  destruct (decide (P x)).
  - rewrite decide_False by tauto. simpl. lia.
  - rewrite decide_True by done. simpl. lia.
Qed.

End Validator.

(** C5.  [validate_barcodes] sends each input string to exactly one of
    its two outputs and keeps the input order: the valid output is the
    list of the valid inputs, trimmed and upper-cased; the invalid output
    is the list of the other inputs, unchanged.  An input is valid iff it
    is non-empty after trimming and all its characters, upper-cased, are
    among A, C, G, T.  Every valid output matches [[ACGT]+], and the two
    outputs together account for every input. *)
Theorem validate_barcodes_partitions (barcodes : list string) :
  validate_barcodes barcodes
  = (normalize <$> filter is_valid barcodes, filter (λ s, ¬ is_valid s) barcodes)
  ∧ Forall matches_ACGT_plus (validate_barcodes barcodes).1
  ∧ (length (validate_barcodes barcodes).1 + length (validate_barcodes barcodes).2
     = length barcodes)%nat
  ∧ (∀ s, s ∈ barcodes →
       (is_valid s ∧ normalize s ∈ (validate_barcodes barcodes).1
        ∧ s ∉ (validate_barcodes barcodes).2)
       ∨ (¬ is_valid s ∧ s ∈ (validate_barcodes barcodes).2))
  ∧ (∀ v, v ∈ (validate_barcodes barcodes).1 →
       ∃ s, s ∈ barcodes ∧ is_valid s ∧ v = normalize s)
  ∧ (∀ s, s ∈ (validate_barcodes barcodes).2 → s ∈ barcodes ∧ ¬ is_valid s).
Proof.
  rewrite validate_barcodes_filter; simpl. split_and!.
  - done.
  - apply Forall_fmap, Forall_forall.
    intros s [Hv _]%list_elem_of_filter. by apply is_valid_normalize_matches.
  - rewrite length_fmap. apply length_filter_partition.
  - intros s Hs. destruct (decide (is_valid s)) as [Hv|Hv]; [left|right].
    + split_and!; [done| |].
      * apply list_elem_of_fmap. exists s. by rewrite list_elem_of_filter.
      * rewrite list_elem_of_filter. tauto.
    + by rewrite list_elem_of_filter.
  - intros v (s & -> & [Hv Hs]%list_elem_of_filter)%list_elem_of_fmap. eauto.
  - intros s [Hv Hs]%list_elem_of_filter. done.
Qed.

Lemma validate_barcodes_partitions_witness :
  validate_barcodes [" acgt"; "ACGU"; "  "; "Tg "]
  = (["ACGT"; "TG"], ["ACGU"; "  "])
  ∧ "ACGU" ∈ [" acgt"; "ACGU"; "  "; "Tg "] ∧ ¬ is_valid "ACGU".
Proof.
  destruct (validate_barcodes_partitions [" acgt"; "ACGU"; "  "; "Tg "])
    as (Heq & _ & _ & _ & _ & Hout).
  assert ("ACGU" ∈ (validate_barcodes [" acgt"; "ACGU"; "  "; "Tg "]).2) as Hin.
  { refine (bool_decide_unpack _ _). vm_compute. exact I. }
  split; [reflexivity|]. exact (Hout "ACGU" Hin).
Defined.

(** ** Normal forms are fixed by the validator *)

Section Idempotence.

Implicit Types (s : string) (l : list ascii) (c : ascii).

Lemma dna_char_not_space c : dna_char c → Str.is_space c = false.
Proof. by intros [->|[->|[->| ->]]]. Qed.

Lemma dna_char_upper c : dna_char c → Str.upper_char c = c.
Proof. by intros [->|[->|[->| ->]]]. Qed.

Lemma lstrip_chars_dna l : Forall dna_char l → Str.lstrip_chars l = l.
Proof.
  destruct 1 as [|c l Hc Hl]; [done|]. simpl.
  by rewrite dna_char_not_space.
Qed.

Lemma rstrip_chars_dna l : Forall dna_char l → Str.rstrip_chars l = l.
Proof.
  intros Hl. unfold Str.rstrip_chars.
  rewrite lstrip_chars_dna by (by apply Forall_reverse).
  apply reverse_involutive.
Qed.

Lemma upper_chars_dna l : Forall dna_char l → map Str.upper_char l = l.
Proof.
  induction 1 as [|c l Hc Hl IH]; [done|]. simpl.
  by rewrite dna_char_upper, IH.
Qed.

Lemma strip_matches s : matches_ACGT_plus s → Str.strip s = s.
Proof.
  intros [_ Hall]. unfold Str.strip.
  by rewrite lstrip_chars_dna, rstrip_chars_dna, of_chars_chars.
Qed.

Lemma upper_matches s : matches_ACGT_plus s → Str.upper s = s.
Proof.
  intros [_ Hall]. unfold Str.upper.
  by rewrite upper_chars_dna, of_chars_chars.
Qed.

Lemma normalize_matches s : matches_ACGT_plus s → normalize s = s.
Proof.
  intros Hs. unfold normalize. by rewrite strip_matches, upper_matches.
Qed.

Lemma matches_is_valid s : matches_ACGT_plus s → is_valid s.
Proof.
  intros Hs. unfold is_valid.
  rewrite strip_matches, upper_matches by done. apply Hs.
Qed.

Lemma validate_barcodes_normal (barcodes : list string) :
  Forall matches_ACGT_plus barcodes →
  validate_barcodes barcodes = (barcodes, []).
Proof.
  intros Hall. rewrite validate_barcodes_filter.
  induction Hall as [|s barcodes Hs Hall IH]; [done|].
  rewrite !filter_cons, decide_True, decide_False, fmap_cons
    by auto using matches_is_valid.
  rewrite normalize_matches by done.
  by injection IH as -> ->.
Qed.

Lemma validate_barcodes_valid_matches (barcodes : list string) :
  Forall matches_ACGT_plus (validate_barcodes barcodes).1.
Proof.
  rewrite validate_barcodes_filter; simpl.
  apply Forall_fmap, Forall_forall.
  intros s [Hv _]%list_elem_of_filter. by apply is_valid_normalize_matches.
Qed.

End Idempotence.

(** C7.  Validating the valid output of [validate_barcodes] again gives
    that same list as valid output and an empty invalid output. *)
Theorem validate_barcodes_idempotent (barcodes : list string) :
  validate_barcodes (validate_barcodes barcodes).1
  = ((validate_barcodes barcodes).1, []).
Proof. apply validate_barcodes_normal, validate_barcodes_valid_matches. Qed.

Example validate_twice :
  validate_barcodes (validate_barcodes [" acgt"; "ACGU"; "  "; "Tg "]).1
  = (["ACGT"; "TG"], []).
Proof. reflexivity. Qed.

Example dyn_validate_raises :
  Dyn.validate_barcodes [Dyn.OStr "ACGT"; Dyn.ONone] = inl Dyn.AttributeError.
Proof. reflexivity. Qed.

Example dyn_hamming_raises :
  Dyn.hamming_distance (Dyn.OStr "ACGT") (Dyn.ONum (Int 4)) = inl Dyn.TypeError.
Proof. reflexivity. Qed.

Example dyn_threshold_raises :
  Dyn.check_barcodes_between_sets [Dyn.OStr "A"] [Dyn.OStr "A"] Dyn.ONone "Set 1" "Set 2"
  = inl Dyn.TypeError.
Proof. reflexivity. Qed.

(** ** No exception on string sequences and an integer threshold *)

Section Totality.

Implicit Types (a b : string) (d : number) (t : Z).

Lemma dyn_hamming_distance_str a b :
  Dyn.hamming_distance (Dyn.OStr a) (Dyn.OStr b) = inr (hamming_distance a b).
Proof.
  unfold Dyn.hamming_distance, hamming_distance. simpl.
  by destruct (negb (Str.len a =? Str.len b)).
Qed.

Lemma dyn_within_record_str a b d :
  Dyn.within_record (Dyn.OStr a) (Dyn.OStr b) d = Dyn.of_record (within_record a b d).
Proof.
  unfold Dyn.within_record, within_record, Dyn.of_record, dict_display. simpl.
  by rewrite !fmap_insert, fmap_empty.
Qed.

Lemma dyn_between_record_str (n1 n2 : string) a b d :
  Dyn.between_record n1 n2 (Dyn.OStr a) (Dyn.OStr b) d
  = Dyn.of_record (between_record n1 n2 a b d).
Proof.
  unfold Dyn.between_record, between_record, Dyn.of_record, dict_display. simpl.
  by rewrite !fmap_insert, fmap_empty.
Qed.

Lemma combinations2_fmap {A B} (f : A → B) (l : list A) :
  combinations2 (f <$> l) = prod_map f f <$> combinations2 l.
Proof.
  induction l as [|x l IH]; [done|].
  rewrite fmap_cons, !combinations2_cons, fmap_app, IH, <-!list_fmap_compose.
  done.
Qed.

(** A loop over objects that never raises follows the typed loop. *)
Lemma fold_left_simulation {X X' S S' : Type}
    (f : S → X → S) (g : Dyn.py S' → X' → Dyn.py S')
    (ex : X → X') (es : S → S') :
  (∀ st x, g (inr (es st)) (ex x) = inr (es (f st x))) →
  ∀ l st, fold_left g (ex <$> l) (inr (es st)) = inr (es (fold_left f l st)).
Proof.
  intros Hstep. induction l as [|x l IH]; intros st; [done|].
  rewrite fmap_cons. simpl. by rewrite Hstep, IH.
Qed.

Lemma dyn_within_loop_str (barcode_list : list string) t :
  Dyn.within_loop (Dyn.OStr <$> barcode_list) (Dyn.ONum (Int t))
  = inr (Dyn.of_record <$> within_loop barcode_list t).
Proof.
  unfold Dyn.within_loop, within_loop. rewrite combinations2_fmap.
  refine (fold_left_simulation _ _ (prod_map Dyn.OStr Dyn.OStr)
            (fmap Dyn.of_record) _ _ []).
  intros clashes [a b]. simpl.
  rewrite dyn_hamming_distance_str. simpl.
  destruct (number_le (hamming_distance a b) t); simpl; [|done].
  by rewrite fmap_app, dyn_within_record_str.
Qed.

Lemma dyn_between_sets_str (set1 set2 : list string) t (n1 n2 : string) :
  Dyn.check_barcodes_between_sets
    (Dyn.OStr <$> set1) (Dyn.OStr <$> set2) (Dyn.ONum (Int t)) n1 n2
  = inr (Dyn.of_record <$> check_barcodes_between_sets set1 set2 t n1 n2).
Proof.
  unfold Dyn.check_barcodes_between_sets, check_barcodes_between_sets.
  refine (fold_left_simulation _ _ Dyn.OStr (fmap Dyn.of_record) _ _ []).
  intros clashes a.
  refine (fold_left_simulation _ _ Dyn.OStr (fmap Dyn.of_record) _ _ clashes).
  intros clashes' b. simpl.
  rewrite dyn_hamming_distance_str. simpl.
  destruct (number_le (hamming_distance a b) t); simpl; [|done].
  by rewrite fmap_app, dyn_between_record_str.
Qed.

Lemma dyn_validate_barcodes_str (barcodes : list string) :
  Dyn.validate_barcodes (Dyn.OStr <$> barcodes)
  = inr (Dyn.OStr <$> (validate_barcodes barcodes).1,
         Dyn.OStr <$> (validate_barcodes barcodes).2).
Proof.
  unfold Dyn.validate_barcodes, validate_barcodes.
  refine (fold_left_simulation _ _ Dyn.OStr
            (λ st : list string * list string,
               (Dyn.OStr <$> st.1, Dyn.OStr <$> st.2)) _ _ ([], [])).
  intros [valid invalid] bc. simpl.
  destruct (_ && _); simpl; by rewrite fmap_app.
Qed.

Global Instance OStr_inj : Inj (=) (=) Dyn.OStr.
Proof. by intros a b [= ->]. Qed.

Lemma objects_of_strings (barcodes : list string) (objs : list Dyn.object) :
  objs ⊆ Dyn.OStr <$> barcodes → ∃ l, objs = Dyn.OStr <$> l.
Proof.
  induction objs as [|o objs IH]; intros Hsub; [by exists []|].
  destruct IH as [l ->]; [intros x Hx; apply Hsub; by right|].
  destruct (proj1 (list_elem_of_fmap _ _ _) (Hsub o ltac:(by left)))
    as (a & -> & _).
  by exists (a :: l).
Qed.

Lemma dyn_within_set_exists (barcodes : list string) t :
  Dyn.check_barcodes_within_set (Dyn.OStr <$> barcodes) (Dyn.ONum (Int t))
    (inr (Dyn.of_record <$> within_loop (remove_dups barcodes) t,
          Dyn.OStr <$> remove_dups barcodes)).
Proof.
  exists (Dyn.OStr <$> remove_dups barcodes). split_and!.
  - apply NoDup_fmap_2; [apply _ | apply NoDup_remove_dups].
  - intros o (a & -> & Ha)%list_elem_of_fmap.
    rewrite elem_of_remove_dups in Ha. by apply list_elem_of_fmap_2.
  - intros o (a & -> & Ha)%list_elem_of_fmap.
    by apply list_elem_of_fmap_2, elem_of_remove_dups.
  - by rewrite dyn_within_loop_str.
Qed.

Lemma dyn_within_set_str (barcodes : list string) t outcome :
  Dyn.check_barcodes_within_set (Dyn.OStr <$> barcodes) (Dyn.ONum (Int t)) outcome →
  ∃ clashes unique_list,
    check_barcodes_within_set barcodes t (clashes, unique_list)
    ∧ outcome = inr (Dyn.of_record <$> clashes, Dyn.OStr <$> unique_list).
Proof.
  intros (objs & Hnd & Hsub1 & Hsub2 & ->).
  destruct (objects_of_strings _ _ Hsub1) as [ul ->].
  exists (within_loop ul t), ul. split.
  - split; [|done]. simpl. split_and!.
    + by eapply NoDup_fmap_1.
    + intros a Ha.
      destruct (proj1 (list_elem_of_fmap _ _ _)
                  (Hsub1 _ (list_elem_of_fmap_2 Dyn.OStr _ _ Ha)))
        as (a' & [= ->] & Ha'). done.
    + intros a Ha.
      destruct (proj1 (list_elem_of_fmap _ _ _)
                  (Hsub2 _ (list_elem_of_fmap_2 Dyn.OStr _ _ Ha)))
        as (a' & [= ->] & Ha'). done.
  - by rewrite dyn_within_loop_str.
Qed.

End Totality.

(** C9.  On sequences of strings and an integer threshold none of the
    four core functions raises: each returns a result, the one computed
    by the typed model above.  A malformed barcode does not make
    [validate_barcodes] fail: it is returned in the invalid output. *)
Theorem core_functions_never_raise
    (barcodes set1 set2 : list string) (s1 s2 : string) (t : Z)
    (set1_name set2_name : string) :
  Dyn.validate_barcodes (Dyn.OStr <$> barcodes)
  = inr (Dyn.OStr <$> (validate_barcodes barcodes).1,
         Dyn.OStr <$> (validate_barcodes barcodes).2)
  ∧ Dyn.hamming_distance (Dyn.OStr s1) (Dyn.OStr s2)
    = inr (hamming_distance s1 s2)
  ∧ (∃ outcome,
       Dyn.check_barcodes_within_set
         (Dyn.OStr <$> barcodes) (Dyn.ONum (Int t)) outcome)
  ∧ (∀ outcome,
       Dyn.check_barcodes_within_set
         (Dyn.OStr <$> barcodes) (Dyn.ONum (Int t)) outcome →
       ∃ clashes unique_list,
         check_barcodes_within_set barcodes t (clashes, unique_list)
         ∧ outcome = inr (Dyn.of_record <$> clashes, Dyn.OStr <$> unique_list))
  ∧ Dyn.check_barcodes_between_sets
      (Dyn.OStr <$> set1) (Dyn.OStr <$> set2) (Dyn.ONum (Int t))
      set1_name set2_name
    = inr (Dyn.of_record
             <$> check_barcodes_between_sets set1 set2 t set1_name set2_name)
  ∧ (∀ s, s ∈ barcodes → ¬ is_valid s → s ∈ (validate_barcodes barcodes).2).
Proof.
  split_and!.
  - apply dyn_validate_barcodes_str.
  - apply dyn_hamming_distance_str.
  - eexists. apply dyn_within_set_exists.
  - apply dyn_within_set_str.
  - apply dyn_between_sets_str.
  - intros s Hs Hv. rewrite validate_barcodes_filter. simpl.
    by apply list_elem_of_filter.
Qed.

Lemma core_functions_never_raise_witness :
  "ACGN" ∈ (validate_barcodes ["ACGT"; "ACGN"]).2
  ∧ Dyn.validate_barcodes [Dyn.OStr "ACGT"; Dyn.OStr "ACGN"]
    = inr ([Dyn.OStr "ACGT"], [Dyn.OStr "ACGN"]).
Proof.
  destruct (core_functions_never_raise ["ACGT"; "ACGN"] [] [] "" "" 0 "" "")
    as (Hval & _ & _ & _ & _ & Hinv).
  split.
  - apply Hinv.
    + refine (bool_decide_unpack _ _). vm_compute. exact I.
    + refine (bool_decide_unpack _ _). vm_compute. exact I.
  - exact Hval.
Defined.

(** ** More sanity checks *)

Example split_ex1 :
  Str.split ("ACGT" +:+ LF +:+ " tgca" +:+ LF +:+ LF) Str.newline
  = ["ACGT"; " tgca"; ""; ""].
Proof. reflexivity. Qed.

Example split_ex2 : Str.split "" Str.newline = [""].
Proof. reflexivity. Qed.

Example single_set_barcodes_ex :
  single_set_barcodes (" acgt" +:+ LF +:+ "  " +:+ LF +:+ "ACGN ")
  = ["acgt"; "ACGN"].
Proof. reflexivity. Qed.

Example compare_set_barcodes_ex :
  compare_set_barcodes (" acgt" +:+ LF +:+ "  " +:+ LF +:+ "ACGn ")
  = ["ACGT"; "ACGN"].
Proof. reflexivity. Qed.

(** * Further properties of the core *)

(** ** [hamming_distance] as a metric *)

Section HammingMetric.

Implicit Types (l k m : list ascii) (bs : list bool).

Lemma sum_bools_app bs1 bs2 :
  sum_bools (bs1 ++ bs2) = sum_bools bs1 + sum_bools bs2.
Proof.
  induction bs1 as [|b bs1 IH]; simpl; [done|].
  rewrite !sum_bools_cons, IH. lia.
Qed.

Lemma sum_bools_le_length bs : sum_bools bs ≤ Z.of_nat (length bs).
Proof.
  induction bs as [|b bs IH]; [done|].
  rewrite sum_bools_cons. destruct b; simpl length; simpl Z.b2z; lia.
Qed.

Lemma sum_differs_zero l k :
  length l = length k → sum_bools (map differs (zip l k)) = 0 → l = k.
Proof.
  revert k. induction l as [|c1 l IH]; intros [|c2 k] Hlen Hsum;
    simplify_eq/=; [done|].
  rewrite sum_bools_cons in Hsum.
  pose proof (sum_bools_nonneg (map differs (zip l k))).
  destruct (Ascii.eqb_spec c1 c2) as [->|Hne]; simpl in Hsum; [|lia].
  f_equal. apply IH; [done | lia].
Qed.

Lemma sum_differs_triangle l k m :
  length l = length k → length k = length m →
  sum_bools (map differs (zip l m))
  ≤ sum_bools (map differs (zip l k)) + sum_bools (map differs (zip k m)).
Proof.
  revert k m. induction l as [|c1 l IH]; intros [|c2 k] [|c3 m] Hlk Hkm;
    simplify_eq/=; [done|].
  rewrite !sum_bools_cons. specialize (IH k m Hlk Hkm).
  destruct (Ascii.eqb_spec c1 c3), (Ascii.eqb_spec c1 c2), (Ascii.eqb_spec c2 c3);
    simpl; try lia; congruence.
Qed.

Lemma sum_differs_app l1 l2 k1 k2 :
  length l1 = length k1 →
  sum_bools (map differs (zip (l1 ++ l2) (k1 ++ k2)))
  = sum_bools (map differs (zip l1 k1)) + sum_bools (map differs (zip l2 k2)).
Proof.
  intros Hlen. rewrite zip_with_app by done.
  by rewrite map_app, sum_bools_app.
Qed.

Lemma length_zip_same l k : length l = length k → length (zip l k) = length l.
Proof. intros Hlen. rewrite length_zip_with. lia. Qed.

Lemma hamming_distance_same_length (s1 s2 : string) :
  String.length s1 = String.length s2 →
  hamming_distance s1 s2
  = Int (sum_bools (map differs (zip (Str.chars s1) (Str.chars s2)))).
Proof. intros Hlen. by rewrite hamming_distance_unfold, decide_True. Qed.

Lemma length_append (s1 s2 : string) :
  String.length (s1 +:+ s2) = (String.length s1 + String.length s2)%nat.
Proof. by rewrite <-!chars_length, chars_app, length_app. Qed.

End HammingMetric.

(** X1.  [hamming_distance] is [float('inf')] exactly when the lengths
    differ; otherwise it is an integer between 0 and the common length. *)
Theorem hamming_distance_range (s1 s2 : string) :
  (hamming_distance s1 s2 = Inf ↔ String.length s1 ≠ String.length s2)
  ∧ (String.length s1 = String.length s2 →
     ∃ d, hamming_distance s1 s2 = Int d
          ∧ 0 ≤ d ≤ Z.of_nat (String.length s1)).
Proof.
  split.
  - rewrite hamming_distance_unfold. case_decide; [|done].
    split; [done|]. by intros [].
  - intros Hlen. rewrite hamming_distance_same_length by done.
    eexists; split; [done|]. split; [apply sum_bools_nonneg|].
    etrans; [apply sum_bools_le_length|].
    rewrite length_map, length_zip_same, chars_length by (by rewrite !chars_length).
    done.
Qed.

Lemma hamming_distance_range_witness :
  ∃ d, hamming_distance "ACGT" "TGCA" = Int d ∧ 0 ≤ d ≤ 4.
Proof.
  apply (proj2 (hamming_distance_range "ACGT" "TGCA")). reflexivity.
Defined.

(** X2.  The distance is 0 only between a string and itself. *)
Theorem hamming_distance_zero_iff_equal (s1 s2 : string) :
  hamming_distance s1 s2 = Int 0 ↔ s1 = s2.
Proof.
  split.
  - rewrite hamming_distance_unfold. case_decide as Hlen; [|done].
    intros [= Hsum]. apply chars_inj, sum_differs_zero; [|done].
    by rewrite !chars_length.
  - intros ->. rewrite hamming_distance_same_length by done.
    by rewrite differs_zip_diag.
Qed.

(** X3.  Triangle inequality: for three strings of one length, the
    distance from the first to the third is at most the sum of the
    distances through the second. *)
Theorem hamming_distance_triangle (a b c : string)
    (Hab : String.length a = String.length b)
    (Hbc : String.length b = String.length c) :
  ∃ x y z, hamming_distance a b = Int x ∧ hamming_distance b c = Int y
           ∧ hamming_distance a c = Int z ∧ z ≤ x + y.
Proof.
  rewrite !hamming_distance_same_length by congruence.
  do 3 eexists. split_and!; [done..|].
  apply sum_differs_triangle; by rewrite !chars_length.
Qed.

Lemma hamming_distance_triangle_witness :
  ∃ x y z, hamming_distance "AAAA" "AATT" = Int x
           ∧ hamming_distance "AATT" "TTTT" = Int y
           ∧ hamming_distance "AAAA" "TTTT" = Int z ∧ z ≤ x + y.
Proof.
  apply (hamming_distance_triangle "AAAA" "AATT" "TTTT"); reflexivity.
Defined.

(** X4.  The distance of two concatenations is the sum of the distances
    of the parts, when the parts have pairwise equal lengths. *)
Theorem hamming_distance_append (a b c e : string)
    (Hab : String.length a = String.length b)
    (Hce : String.length c = String.length e) :
  ∃ x y, hamming_distance a b = Int x ∧ hamming_distance c e = Int y
         ∧ hamming_distance (a +:+ c) (b +:+ e) = Int (x + y).
Proof.
  rewrite !hamming_distance_same_length
    by (rewrite ?length_append; congruence).
  do 2 eexists. split_and!; [done..|].
  by rewrite !chars_app, sum_differs_app by (by rewrite !chars_length).
Qed.

Lemma hamming_distance_append_witness :
  ∃ x y, hamming_distance "ACGT" "ACGA" = Int x
         ∧ hamming_distance "TT" "GT" = Int y
         ∧ hamming_distance ("ACGT" +:+ "TT") ("ACGA" +:+ "GT") = Int (x + y).
Proof.
  apply (hamming_distance_append "ACGT" "ACGA" "TT" "GT"); reflexivity.
Defined.

(** ** Counts and distances of the within-set detector *)

Section WithinCounts.

Lemma length_combinations2 {A} (l : list A) :
  (2 * length (combinations2 l) = length l * (length l - 1))%nat.
Proof.
  induction l as [|x l IH]; [done|].
  rewrite combinations2_cons, length_app, length_fmap. simpl length. nia.
Qed.

Lemma filter_all {A} (P : A → Prop) `{!∀ x, Decision (P x)} (l : list A) :
  (∀ x, x ∈ l → P x) → filter P l = l.
Proof.
  induction l as [|x l IH]; intros HP; [done|].
  rewrite filter_cons_True by (apply HP; by left).
  f_equal. apply IH. intros y Hy. apply HP. by right.
Qed.

(** What an integer distance tells about the two strings. *)
Lemma hamming_distance_Int (a b : string) (d : Z) :
  hamming_distance a b = Int d →
  String.length a = String.length b
  ∧ 0 ≤ d ≤ Z.of_nat (String.length a) ∧ (d = 0 → a = b).
Proof.
  rewrite hamming_distance_unfold. case_decide as Hlen; [|done].
  intros [= <-]. split_and!; [done|apply sum_bools_nonneg| |].
  - etrans; [apply sum_bools_le_length|].
    rewrite length_map, length_zip_same, chars_length by (by rewrite !chars_length).
    done.
  - intros Hsum. apply chars_inj, sum_differs_zero; [|done].
    by rewrite !chars_length.
Qed.

Lemma clashing_Int (t : Z) (a b : string) :
  clashing t (a, b) → ∃ d, hamming_distance a b = Int d ∧ d ≤ t.
Proof.
  unfold clashing; simpl. destruct (hamming_distance a b) as [d|]; [|done].
  simpl. rewrite Z.leb_le. eauto.
Qed.

Lemma same_length_clashing (t : Z) (a b : string) :
  String.length a = String.length b → Z.of_nat (String.length a) ≤ t →
  clashing t (a, b).
Proof.
  intros Hlen Ht. unfold clashing; simpl.
  rewrite hamming_distance_same_length by done. simpl. apply Z.leb_le.
  etrans; [apply sum_bools_le_length|].
  rewrite length_map, length_zip_same, chars_length by (by rewrite !chars_length).
  done.
Qed.

Lemma list_of_set_length (barcodes unique_list : list string) :
  list_of_set barcodes unique_list →
  (length unique_list ≤ length barcodes)%nat
  ∧ (length unique_list = length barcodes ↔ NoDup barcodes).
Proof.
  intros (Hnd & Hsub1 & Hsub2).
  assert (unique_list ⊆+ barcodes) as Hms by (by apply NoDup_submseteq).
  split; [by apply submseteq_length|]. split.
  - intros Hlen. rewrite <-(submseteq_length_Permutation _ _ Hms); [done|lia].
  - intros Hnd'. apply Permutation_length, NoDup_Permutation; [done..|].
    intros x; split; auto.
Qed.

End WithinCounts.

(** X5.  Every record of the within-set detector carries an integer
    distance between 1 and the threshold: duplicates are removed before
    the comparison, so distance 0 never occurs, and with a threshold of 0
    or less the detector reports nothing. *)
Theorem within_set_distance_range
    (barcodes : list string) (t : Z) (clashes : list record)
    (unique_list : list string)
    (Hret : check_barcodes_within_set barcodes t (clashes, unique_list)) :
  (∀ r, r ∈ clashes →
     ∃ d, r !! "Hamming Distance" = Some (FNum (Int d)) ∧ 1 ≤ d ≤ t)
  ∧ (t ≤ 0 → clashes = []).
Proof.
  destruct Hret as [(Hnd & _) Hloop]; simpl in *.
  rewrite within_loop_filter in Hloop. subst clashes.
  assert (∀ r, r ∈ within_record_of <$> filter (clashing t) (combinations2 unique_list) →
            ∃ d, r !! "Hamming Distance" = Some (FNum (Int d)) ∧ 1 ≤ d ≤ t) as Hrange.
  { intros r ([a b] & -> & [Hc Hin]%list_elem_of_filter)%list_elem_of_fmap.
    destruct (clashing_Int _ _ _ Hc) as (d & Hd & Hle).
    pose proof (combinations2_distinct _ _ _ Hnd Hin) as Hne.
    destruct (hamming_distance_Int _ _ _ Hd) as (_ & [H0 _] & Hzero).
    exists d. unfold within_record_of; simpl. rewrite Hd. split.
    - apply within_record_fields.
    - assert (d ≠ 0) by (intros ->; by apply Hne, Hzero). lia. }
  split; [done|]. intros Ht.
  destruct (within_record_of <$> _) as [|r rs] eqn:Heq; [done|].
  destruct (Hrange r ltac:(by left)) as (d & _ & Hd). lia.
Qed.

Lemma within_set_distance_range_witness :
  (∀ r, r ∈ within_loop ["ACGT"; "ACGA"; "TGCA"] 2 →
     ∃ d, r !! "Hamming Distance" = Some (FNum (Int d)) ∧ 1 ≤ d ≤ 2)
  ∧ within_loop ["ACGT"; "ACGA"; "TGCA"] 2
    = [within_record "ACGT" "ACGA" (Int 1)].
Proof.
  split.
  - apply (within_set_distance_range ["ACGT"; "ACGT"; "ACGA"; "TGCA"] 2
             _ ["ACGT"; "ACGA"; "TGCA"]).
    refine (bool_decide_unpack _ _). vm_compute. exact I.
  - vm_compute. reflexivity.
Defined.

(** X6.  With [n] unique barcodes there are at most [n (n - 1) / 2]
    clash records; the unique list is never longer than the input, and
    has the input's length exactly when the input has no duplicate. *)
Theorem within_set_counts
    (barcodes : list string) (t : Z) (clashes : list record)
    (unique_list : list string)
    (Hret : check_barcodes_within_set barcodes t (clashes, unique_list)) :
  (2 * length clashes ≤ length unique_list * (length unique_list - 1))%nat
  ∧ (length unique_list ≤ length barcodes)%nat
  ∧ (length unique_list = length barcodes ↔ NoDup barcodes).
Proof.
  destruct Hret as [Hset Hloop]; simpl in *.
  rewrite within_loop_filter in Hloop. subst clashes.
  split; [|by apply list_of_set_length].
  rewrite length_fmap, <-length_combinations2.
  pose proof (length_filter (clashing t) (combinations2 unique_list)). lia.
Qed.

Lemma within_set_counts_witness :
  (2 * length (within_loop ["ACGT"; "ACGA"; "TGCA"] 2) ≤ 3 * (3 - 1))%nat
  ∧ (3 ≤ 4)%nat
  ∧ (3%nat = 4%nat ↔ NoDup ["ACGT"; "ACGT"; "ACGA"; "TGCA"]).
Proof.
  apply (within_set_counts ["ACGT"; "ACGT"; "ACGA"; "TGCA"] 2
           _ ["ACGT"; "ACGA"; "TGCA"]).
  refine (bool_decide_unpack _ _). vm_compute. exact I.
Defined.

(** X7.  Only the set of input barcodes matters: two inputs with the same
    elements (in any order, with any repetitions) have the same possible
    results, and any two results have unique lists that are permutations
    of each other and the same number of clash records. *)
Theorem within_set_ignores_order_and_duplicates
    (barcodes barcodes' : list string) (t : Z)
    (Hsame : ∀ x, x ∈ barcodes ↔ x ∈ barcodes') :
  (∀ result, check_barcodes_within_set barcodes t result
             ↔ check_barcodes_within_set barcodes' t result)
  ∧ (∀ clashes unique_list clashes' unique_list',
       check_barcodes_within_set barcodes t (clashes, unique_list) →
       check_barcodes_within_set barcodes' t (clashes', unique_list') →
       unique_list ≡ₚ unique_list' ∧ length clashes = length clashes').
Proof.
  assert (∀ l, list_of_set barcodes l ↔ list_of_set barcodes' l) as Hlos.
  { intros l. unfold list_of_set. split; intros (Hnd & H1 & H2);
      (split_and!; [done|..]); intros x Hx.
    - apply Hsame, H1, Hx.
    - apply H2, Hsame, Hx.
    - apply Hsame, H1, Hx.
    - apply H2, Hsame, Hx. }
  split.
  - intros result. unfold check_barcodes_within_set. by rewrite Hlos.
  - intros c u c' u' [Hu Hc] [Hu' Hc']; simpl in *. subst c c'.
    apply Hlos in Hu'.
    pose proof (list_of_set_perm _ _ _ Hu Hu') as Hperm. split; [done|].
    rewrite !within_loop_filter, !length_fmap.
    apply combinations2_count_perm; [|done]. intros a b. apply clashing_sym.
Qed.

Lemma within_set_ignores_order_and_duplicates_witness :
  ["ACGT"; "ACGA"] ≡ₚ ["ACGA"; "ACGT"]
  ∧ length (within_loop ["ACGT"; "ACGA"] 1) = length (within_loop ["ACGA"; "ACGT"] 1).
Proof.
  assert (∀ x : string, x ∈ ["ACGT"; "ACGA"; "ACGT"] ↔ x ∈ ["ACGA"; "ACGT"]) as Hsame.
  { intros x. rewrite !elem_of_cons. pose proof (not_elem_of_nil x). tauto. }
  destruct (within_set_ignores_order_and_duplicates
              ["ACGT"; "ACGA"; "ACGT"] ["ACGA"; "ACGT"] 1 Hsame) as [_ Hres].
  apply (Hres (within_loop ["ACGT"; "ACGA"] 1) _ (within_loop ["ACGA"; "ACGT"] 1)).
  - refine (bool_decide_unpack _ _). vm_compute. exact I.
  - refine (bool_decide_unpack _ _). vm_compute. exact I.
Defined.

(** X8.  When all barcodes have one length and the threshold is at least
    that length, every pair of unique barcodes is reported: the count
    reaches [n (n - 1) / 2]. *)
Theorem within_set_saturates
    (barcodes : list string) (t : Z) (len : nat)
    (clashes : list record) (unique_list : list string)
    (Hlen : ∀ x, x ∈ barcodes → String.length x = len)
    (Ht : Z.of_nat len ≤ t)
    (Hret : check_barcodes_within_set barcodes t (clashes, unique_list)) :
  (2 * length clashes = length unique_list * (length unique_list - 1))%nat.
Proof.
  destruct Hret as [(Hnd & Hsub & _) Hloop]; simpl in *.
  rewrite within_loop_filter in Hloop. subst clashes.
  rewrite length_fmap, filter_all; [apply length_combinations2|].
  intros [a b] [Ha Hb]%elem_of_combinations2.
  apply same_length_clashing.
  - by rewrite !Hlen by auto.
  - by rewrite Hlen by auto.
Qed.

Lemma within_set_saturates_witness :
  (2 * length (within_loop ["ACGT"; "TGCA"; "AAAA"] 4) = 3 * (3 - 1))%nat.
Proof.
  apply (within_set_saturates ["ACGT"; "TGCA"; "AAAA"] 4 4
           _ ["ACGT"; "TGCA"; "AAAA"]).
  - intros x Hx. rewrite !elem_of_cons in Hx.
    destruct Hx as [->|[->|[->|Hx]]]; [reflexivity..|].
    by apply not_elem_of_nil in Hx.
  - simpl. lia.
  - refine (bool_decide_unpack _ _). vm_compute. exact I.
Defined.

(** ** Counts and distances of the cross-set detector *)

Section CrossCounts.

Context {A B : Type}.
Implicit Types (l : list A) (k : list B).

Lemma cprod_cons x l k : cprod (x :: l) k = (pair x <$> k) ++ cprod l k.
Proof. done. Qed.

Lemma cprod_app l1 l2 k : cprod (l1 ++ l2) k = cprod l1 k ++ cprod l2 k.
Proof.
  induction l1 as [|x l1 IH]; [done|].
  by rewrite <-app_comm_cons, !cprod_cons, IH, app_assoc.
Qed.

Lemma length_cprod l k : length (cprod l k) = (length l * length k)%nat.
Proof.
  induction l as [|x l IH]; [done|].
  rewrite cprod_cons, length_app, length_fmap, IH. simpl. lia.
Qed.

Lemma length_filter_cprod_app_r (Q : A * B → Prop) `{!∀ p, Decision (Q p)} l k1 k2 :
  length (filter Q (cprod l (k1 ++ k2)))
  = (length (filter Q (cprod l k1)) + length (filter Q (cprod l k2)))%nat.
Proof.
  induction l as [|x l IH]; [done|].
  rewrite !cprod_cons, fmap_app, !filter_app, !length_app, IH. lia.
Qed.

Lemma length_filter_cprod_cons_r (Q : A * B → Prop) `{!∀ p, Decision (Q p)} l y k :
  length (filter Q (cprod l (y :: k)))
  = (length (filter (λ x, Q (x, y)) l) + length (filter Q (cprod l k)))%nat.
Proof.
  induction l as [|x l IH]; [done|].
  rewrite !cprod_cons, fmap_cons, !filter_app, !length_app, IH, !filter_cons.
  destruct (decide (Q (x, y))); simpl; lia.
Qed.

End CrossCounts.

Lemma length_filter_cprod_swap {A B} (Q : A * B → Prop) `{!∀ p, Decision (Q p)}
    (l : list A) (k : list B) :
  length (filter Q (cprod l k))
  = length (filter (λ p, Q (p.2, p.1)) (cprod k l)).
Proof.
  induction l as [|x l IH].
  - induction k as [|y k IHk]; [done|]. by rewrite cprod_cons.
  - rewrite cprod_cons, filter_app, length_app, IH.
    rewrite (length_filter_cprod_cons_r (λ p, Q (p.2, p.1))).
    by rewrite list_filter_fmap, length_fmap.
Qed.

Lemma between_record_distance (n1 n2 a b : string) (d : number) :
  between_record n1 n2 a b d !! "Hamming Distance" = Some (FNum d).
Proof. unfold between_record, dict_display. simpl. apply lookup_insert_eq. Qed.

Lemma hamming_distance_diag (a : string) : hamming_distance a a = Int 0.
Proof.
  rewrite hamming_distance_same_length by done. by rewrite differs_zip_diag.
Qed.

Lemma clashing_zero (a b : string) : clashing 0 (a, b) ↔ a = b.
Proof.
  split.
  - intros (d & Hd & Hle)%clashing_Int.
    destruct (hamming_distance_Int _ _ _ Hd) as (_ & [H0 _] & Hzero).
    apply Hzero. lia.
  - intros ->. unfold clashing; simpl. by rewrite hamming_distance_diag.
Qed.

(** X9.  The cross-set detector works barcode by barcode of set 1:
    the result for a concatenated first set is the concatenation of the
    results; for a concatenated second set the counts add up. *)
Theorem between_sets_append
    (set1 set1' set2 set2' : list string) (t : Z) (n1 n2 : string) :
  check_barcodes_between_sets (set1 ++ set1') set2 t n1 n2
  = check_barcodes_between_sets set1 set2 t n1 n2
    ++ check_barcodes_between_sets set1' set2 t n1 n2
  ∧ length (check_barcodes_between_sets set1 (set2 ++ set2') t n1 n2)
    = (length (check_barcodes_between_sets set1 set2 t n1 n2)
       + length (check_barcodes_between_sets set1 set2' t n1 n2))%nat.
Proof.
  rewrite !between_sets_filter. split.
  - by rewrite cprod_app, filter_app, fmap_app.
  - rewrite !length_fmap. apply length_filter_cprod_app_r.
Qed.

(** X10.  There are at most [len(set1) * len(set2)] records, and exactly
    that many when all barcodes of both sets have one length that does
    not exceed the threshold. *)
Theorem between_sets_count_bound
    (set1 set2 : list string) (t : Z) (n1 n2 : string) :
  (length (check_barcodes_between_sets set1 set2 t n1 n2)
   ≤ length set1 * length set2)%nat
  ∧ (∀ len : nat,
       (∀ x, x ∈ set1 → String.length x = len) →
       (∀ x, x ∈ set2 → String.length x = len) →
       Z.of_nat len ≤ t →
       length (check_barcodes_between_sets set1 set2 t n1 n2)
       = (length set1 * length set2)%nat).
Proof.
  rewrite between_sets_filter, length_fmap, <-length_cprod. split.
  - apply length_filter.
  - intros len H1 H2 Ht. rewrite filter_all; [done|].
    intros [a b] [Ha Hb]%list_elem_of_cprod; simpl in *.
    apply same_length_clashing.
    + by rewrite H1, H2.
    + by rewrite H1.
Qed.

Lemma between_sets_count_bound_witness :
  length (check_barcodes_between_sets ["ACGT"; "TTTT"] ["AAAA"; "CCCC"; "GGGG"] 4 "A" "B")
  = (2 * 3)%nat.
Proof.
  apply (proj2 (between_sets_count_bound
                  ["ACGT"; "TTTT"] ["AAAA"; "CCCC"; "GGGG"] 4 "A" "B") 4%nat).
  - intros x Hx. rewrite !elem_of_cons in Hx.
    destruct Hx as [->|[->|Hx]]; [reflexivity..|].
    by apply not_elem_of_nil in Hx.
  - intros x Hx. rewrite !elem_of_cons in Hx.
    destruct Hx as [->|[->|[->|Hx]]]; [reflexivity..|].
    by apply not_elem_of_nil in Hx.
  - simpl. lia.
Defined.

(** X11.  Exchanging the two sets (and their labels) does not change the
    number of clash records. *)
Theorem between_sets_count_swap
    (set1 set2 : list string) (t : Z) (n1 n2 : string) :
  length (check_barcodes_between_sets set1 set2 t n1 n2)
  = length (check_barcodes_between_sets set2 set1 t n2 n1).
Proof.
  rewrite !between_sets_filter, !length_fmap, length_filter_cprod_swap.
  f_equal. apply filter_ext_elem. intros [a b] _; simpl.
  split; apply clashing_sym.
Qed.

(** X12.  Every record of the cross-set detector carries an integer
    distance between 0 and the threshold, whatever the labels; with a
    negative threshold the detector reports nothing. *)
Theorem between_sets_distance_range
    (set1 set2 : list string) (t : Z) (n1 n2 : string) :
  (∀ r, r ∈ check_barcodes_between_sets set1 set2 t n1 n2 →
     ∃ d, r !! "Hamming Distance" = Some (FNum (Int d)) ∧ 0 ≤ d ≤ t)
  ∧ (t < 0 → check_barcodes_between_sets set1 set2 t n1 n2 = []).
Proof.
  rewrite between_sets_filter.
  assert (∀ r, r ∈ between_record_of n1 n2 <$> filter (clashing t) (cprod set1 set2) →
            ∃ d, r !! "Hamming Distance" = Some (FNum (Int d)) ∧ 0 ≤ d ≤ t) as Hrange.
  { intros r ([a b] & -> & [Hc _]%list_elem_of_filter)%list_elem_of_fmap.
    destruct (clashing_Int _ _ _ Hc) as (d & Hd & Hle).
    destruct (hamming_distance_Int _ _ _ Hd) as (_ & [H0 _] & _).
    exists d. unfold between_record_of; simpl. rewrite Hd.
    split; [apply between_record_distance | lia]. }
  split; [done|]. intros Ht.
  destruct (between_record_of n1 n2 <$> _) as [|r rs] eqn:Heq; [done|].
  destruct (Hrange r ltac:(by left)) as (d & _ & Hd). lia.
Qed.

Lemma between_sets_distance_range_witness :
  check_barcodes_between_sets ["ACGT"] ["ACGT"; "ACGA"] (-1) "A" "B" = [].
Proof.
  apply (proj2 (between_sets_distance_range ["ACGT"] ["ACGT"; "ACGA"] (-1) "A" "B")).
  lia.
Defined.

(** X13.  At threshold 0 the cross-set detector reports exactly the
    pairs of identical barcodes, one record per pair of positions. *)
Theorem between_sets_threshold_zero
    (set1 set2 : list string) (n1 n2 : string) :
  check_barcodes_between_sets set1 set2 0 n1 n2
  = (λ p, between_record n1 n2 p.1 p.2 (Int 0))
      <$> filter (λ p, p.1 = p.2) (cprod set1 set2).
Proof.
  rewrite between_sets_filter.
  rewrite (filter_ext_elem (clashing 0) (λ p, p.1 = p.2))
    by (intros [a b] _; apply clashing_zero).
  apply list_fmap_ext. intros i [a b] [Heq _]%list_elem_of_lookup_2%list_elem_of_filter.
  simpl in *. subst b. unfold between_record_of; simpl.
  by rewrite hamming_distance_diag.
Qed.

(** X14.  With two different labels every record of the cross-set
    detector has three fields, and the barcode of set 1 and the barcode
    of set 2 can both be read back under their labelled keys. *)
Theorem distinct_labels_records_keep_both_barcodes
    (set1 set2 : list string) (t : Z) (set1_name set2_name : string)
    (Hne : set1_name ≠ set2_name) :
  Forall2
    (λ r ij, ∃ a b, set1 !! ij.1 = Some a ∧ set2 !! ij.2 = Some b
       ∧ size r = 3%nat
       ∧ r !! (set1_name +:+ " Barcode") = Some (FStr a)
       ∧ r !! (set2_name +:+ " Barcode") = Some (FStr b)
       ∧ r !! "Hamming Distance" = Some (FNum (hamming_distance a b)))
    (check_barcodes_between_sets set1 set2 t set1_name set2_name)
    (filter (clash_at set1 set2 t) (index_pairs (length set1) (length set2))).
Proof.
  eapply Forall2_impl; [apply between_sets_records_at|].
  intros r ij (a & b & Ha & Hb & _ & ->). exists a, b.
  destruct (between_record_distinct_labels set1_name set2_name a b
              (hamming_distance a b) Hne) as (? & ? & ? & ?).
  done.
Qed.

Lemma distinct_labels_records_keep_both_barcodes_witness :
  Forall2
    (λ r ij, ∃ a b, ["AAAA"] !! ij.1 = Some a ∧ ["AAAT"] !! ij.2 = Some b
       ∧ size r = 3%nat
       ∧ r !! ("Set 1" +:+ " Barcode") = Some (FStr a)
       ∧ r !! ("Set 2" +:+ " Barcode") = Some (FStr b)
       ∧ r !! "Hamming Distance" = Some (FNum (hamming_distance a b)))
    (check_barcodes_between_sets ["AAAA"] ["AAAT"] 1 "Set 1" "Set 2")
    (filter (clash_at ["AAAA"] ["AAAT"] 1) (index_pairs 1 1)).
Proof.
  apply (distinct_labels_records_keep_both_barcodes
           ["AAAA"] ["AAAT"] 1 "Set 1" "Set 2").
  discriminate.
Defined.

(** ** More on the validator *)

Section Trimming.

Implicit Types (l k m : list ascii) (c : ascii) (s : string).

Lemma lstrip_chars_spaces l :
  Str.lstrip_chars l = [] ↔ Forall (λ c, Str.is_space c = true) l.
Proof.
  induction l as [|c l IH]; simpl.
  - split; [constructor | done].
  - destruct (Str.is_space c) eqn:Hc.
    + rewrite IH, Forall_cons. tauto.
    + split; [done|]. intros [Hc' _]%Forall_cons. congruence.
Qed.

Lemma lstrip_chars_head l c m :
  Str.lstrip_chars l = c :: m → Str.is_space c = false.
Proof.
  induction l as [|x l IH]; simpl; [done|].
  destruct (Str.is_space x) eqn:Hx; [done|]. by intros [= <- <-].
Qed.

Lemma lstrip_chars_nonspace c m :
  Str.is_space c = false → Str.lstrip_chars (c :: m) = c :: m.
Proof. intros Hc. simpl. by rewrite Hc. Qed.

Lemma lstrip_chars_app_nonspace k c m :
  Str.is_space c = false →
  Str.lstrip_chars (k ++ c :: m) = Str.lstrip_chars k ++ c :: m.
Proof.
  intros Hc. induction k as [|x k IH]; simpl; [by rewrite Hc|].
  by destruct (Str.is_space x).
Qed.

Lemma lstrip_chars_idemp l :
  Str.lstrip_chars (Str.lstrip_chars l) = Str.lstrip_chars l.
Proof.
  destruct (Str.lstrip_chars l) as [|c m] eqn:Heq; [done|].
  apply lstrip_chars_nonspace. by eapply lstrip_chars_head.
Qed.

Lemma rstrip_chars_cons_nonspace c m :
  Str.is_space c = false → Str.rstrip_chars (c :: m) = c :: Str.rstrip_chars m.
Proof.
  intros Hc. unfold Str.rstrip_chars.
  rewrite reverse_cons, (lstrip_chars_app_nonspace _ c []) by done.
  by rewrite reverse_app.
Qed.

Lemma rstrip_chars_idemp l :
  Str.rstrip_chars (Str.rstrip_chars l) = Str.rstrip_chars l.
Proof.
  unfold Str.rstrip_chars. by rewrite reverse_involutive, lstrip_chars_idemp.
Qed.

(** Trimming a character list at both ends, as [Str.strip] does. *)
Lemma strip_chars_cases l :
  (Forall (λ c, Str.is_space c = true) l
   ∧ Str.rstrip_chars (Str.lstrip_chars l) = [])
  ∨ (∃ c m, Str.is_space c = false ∧ c ∈ l
            ∧ Str.rstrip_chars (Str.lstrip_chars l) = c :: Str.rstrip_chars m).
Proof.
  destruct (Str.lstrip_chars l) as [|c m] eqn:Heq.
  - left. split; [by apply lstrip_chars_spaces | done].
  - right. exists c, m. pose proof (lstrip_chars_head _ _ _ Heq) as Hc.
    split_and!; [done| |by apply rstrip_chars_cons_nonspace].
    clear Hc. induction l as [|x l IH]; simpl in Heq; [done|].
    destruct (Str.is_space x); [right; by apply IH|].
    injection Heq as -> _. by left.
Qed.

Lemma strip_idemp s : Str.strip (Str.strip s) = Str.strip s.
Proof.
  unfold Str.strip. rewrite chars_of_chars. f_equal.
  destruct (strip_chars_cases (Str.chars s)) as [[_ ->]|(c & m & Hc & _ & ->)];
    [done|].
  rewrite lstrip_chars_nonspace, rstrip_chars_cons_nonspace by done.
  by rewrite rstrip_chars_idemp.
Qed.

Lemma strip_empty_iff s :
  Str.strip s = "" ↔ Forall (λ c, Str.is_space c = true) (Str.chars s).
Proof.
  unfold Str.strip.
  destruct (strip_chars_cases (Str.chars s)) as [[Hall ->]|(c & m & Hc & Hin & ->)].
  - done.
  - split; [done|]. intros Hall. rewrite Forall_forall in Hall.
    specialize (Hall c Hin). congruence.
Qed.

(** Upper-casing keeps whitespace and non-whitespace apart. *)
Lemma is_space_upper_char c : Str.is_space (Str.upper_char c) = Str.is_space c.
Proof.
  destruct c as [b0 b1 b2 b3 b4 b5 b6 b7].
  by destruct b0, b1, b2, b3, b4, b5, b6, b7.
Qed.


Lemma dna_upper_char c : dna_char (Str.upper_char c) ↔ accepted_char c.
Proof.
  assert (bool_decide (dna_char (Str.upper_char c)) = bool_decide (accepted_char c)) as H.
  { destruct c as [b0 b1 b2 b3 b4 b5 b6 b7].
    by destruct b0, b1, b2, b3, b4, b5, b6, b7. }
  by rewrite <-(bool_decide_spec (dna_char _)), H, bool_decide_spec.
Qed.

Lemma lstrip_chars_upper l :
  Str.lstrip_chars (map Str.upper_char l) = map Str.upper_char (Str.lstrip_chars l).
Proof.
  induction l as [|c l IH]; simpl; [done|].
  rewrite is_space_upper_char. by destruct (Str.is_space c).
Qed.

Lemma rstrip_chars_upper l :
  Str.rstrip_chars (map Str.upper_char l) = map Str.upper_char (Str.rstrip_chars l).
Proof.
  assert (∀ k, reverse (map Str.upper_char k) = map Str.upper_char (reverse k))
    as Hrev.
  { intros k. change (map Str.upper_char) with (fmap (M := list) Str.upper_char).
    by rewrite fmap_reverse. }
  unfold Str.rstrip_chars. by rewrite Hrev, lstrip_chars_upper, Hrev.
Qed.

Lemma strip_upper s : Str.strip (Str.upper s) = Str.upper (Str.strip s).
Proof.
  unfold Str.strip, Str.upper. rewrite !chars_of_chars.
  by rewrite lstrip_chars_upper, rstrip_chars_upper.
Qed.








Lemma is_valid_accepted s : is_valid s ↔ accepted s.
Proof.
  unfold is_valid, accepted, Str.upper. rewrite chars_of_chars.
  change (map Str.upper_char) with (fmap (M := list) Str.upper_char).
  rewrite Forall_fmap. apply and_iff_compat_l, Forall_proper; [|done].
  intros c. apply dna_upper_char.
Qed.

End Trimming.

(** X15.  The validator works entry by entry: the outputs for a
    concatenated input are the concatenations of the outputs. *)
Theorem validate_barcodes_append (barcodes barcodes' : list string) :
  validate_barcodes (barcodes ++ barcodes')
  = ((validate_barcodes barcodes).1 ++ (validate_barcodes barcodes').1,
     (validate_barcodes barcodes).2 ++ (validate_barcodes barcodes').2).
Proof.
  rewrite !validate_barcodes_filter. simpl.
  by rewrite !filter_app, fmap_app.
Qed.

(** X16.  What the validator accepts, read before upper-casing: an entry
    is valid exactly when, once trimmed, it is non-empty and made of the
    eight letters A, C, G, T, a, c, g, t; every other entry, such as a
    blank one or one with an N, goes to the invalid output. *)
Theorem validate_barcodes_accepted_letters (barcodes : list string) :
  validate_barcodes barcodes
  = (normalize <$> filter accepted barcodes, filter (λ s, ¬ accepted s) barcodes).
Proof.
  rewrite validate_barcodes_filter. f_equal.
  - f_equal. apply filter_ext_elem. intros s _. apply is_valid_accepted.
  - apply filter_ext_elem. intros s _. by rewrite is_valid_accepted.
Qed.


(** ** The text areas *)

Section Lines.

Implicit Types (l q : list ascii) (c sep : ascii) (s : string).

Lemma split_unfold s sep :
  Str.split s sep
  = Str.of_chars <$> ((Str.split_chars sep (Str.chars s)).1
                        :: (Str.split_chars sep (Str.chars s)).2).
Proof. unfold Str.split. by destruct (Str.split_chars sep (Str.chars s)). Qed.

Lemma split_chars_cons sep c l :
  Str.split_chars sep (c :: l)
  = if Ascii.eqb c sep
    then ([], (Str.split_chars sep l).1 :: (Str.split_chars sep l).2)
    else (c :: (Str.split_chars sep l).1, (Str.split_chars sep l).2).
Proof. simpl. by destruct (Str.split_chars sep l). Qed.

(** Joining the pieces with the separator gives the text back. *)
Lemma split_chars_join sep l :
  join_chars sep ((Str.split_chars sep l).1 :: (Str.split_chars sep l).2) = l.
Proof.
  induction l as [|c l IH]; [done|].
  rewrite split_chars_cons.
  destruct (Ascii.eqb_spec c sep) as [->|Hne]; simpl in *.
  - by rewrite IH.
  - destruct (Str.split_chars sep l).2 as [|q qs]; simpl in *; f_equal; exact IH.
Qed.

Lemma split_chars_elem sep l c :
  c ∈ l → c ≠ sep →
  ∃ q, q ∈ (Str.split_chars sep l).1 :: (Str.split_chars sep l).2 ∧ c ∈ q.
Proof.
  induction l as [|x l IH]; [by intros ?%not_elem_of_nil|].
  intros Hin Hne. rewrite split_chars_cons.
  destruct (Ascii.eqb_spec x sep) as [->|Hx]; simpl.
  - apply elem_of_cons in Hin as [->|Hin]; [done|].
    destruct (IH Hin Hne) as (q & Hq & Hc). exists q. split; [by right|done].
  - apply elem_of_cons in Hin as [->|Hin].
    + eexists. split; [by left|by left].
    + destruct (IH Hin Hne) as (q & Hq & Hc).
      apply elem_of_cons in Hq as [->|Hq].
      * eexists. split; [by left|by right].
      * exists q. split; [by right|done].
Qed.

Lemma split_chars_elem_inv sep l q c :
  q ∈ (Str.split_chars sep l).1 :: (Str.split_chars sep l).2 → c ∈ q →
  c ∈ l ∧ c ≠ sep.
Proof.
  revert q. induction l as [|x l IH]; intros q.
  - simpl. intros ->%list_elem_of_singleton. by intros ?%not_elem_of_nil.
  - rewrite split_chars_cons.
    destruct (Ascii.eqb_spec x sep) as [->|Hx]; simpl.
    + intros [->|Hq]%elem_of_cons Hc; [by apply not_elem_of_nil in Hc|].
      destruct (IH q Hq Hc). split; [by right|done].
    + intros [->|Hq]%elem_of_cons Hc.
      * apply elem_of_cons in Hc as [->|Hc]; [split; [by left|done]|].
        destruct (IH _ ltac:(by left) Hc). split; [by right|done].
      * destruct (IH q ltac:(by right) Hc). split; [by right|done].
Qed.

Lemma elem_of_lstrip_chars l c : c ∈ Str.lstrip_chars l → c ∈ l.
Proof.
  induction l as [|x l IH]; simpl; [done|].
  destruct (Str.is_space x); [|done]. intros ?%IH. by right.
Qed.

Lemma elem_of_strip s c : c ∈ Str.chars (Str.strip s) → c ∈ Str.chars s.
Proof.
  unfold Str.strip, Str.rstrip_chars. rewrite chars_of_chars, elem_of_reverse.
  intros H. apply elem_of_lstrip_chars in H. rewrite elem_of_reverse in H.
  by apply elem_of_lstrip_chars.
Qed.

Lemma strip_nonempty_iff s :
  Str.truthy (Str.strip s) = true
  ↔ ∃ c, c ∈ Str.chars s ∧ Str.is_space c = false.
Proof.
  rewrite truthy_nonempty, strip_empty_iff. split.
  - intros (c & Hin & Hc)%not_Forall_Exists%Exists_exists; [|apply _].
    exists c. split; [done|]. by apply not_true_is_false.
  - intros (c & Hin & Hc) Hall. rewrite Forall_forall in Hall.
    specialize (Hall c Hin). congruence.
Qed.

Lemma elem_of_List_filter {A} (f : A → bool) (l : list A) (x : A) :
  x ∈ List.filter f l ↔ x ∈ l ∧ f x = true.
Proof. by rewrite !list_elem_of_In, filter_In. Qed.

(** The lines that survive the [if bc.strip()] of the comprehensions. *)
Lemma nonblank_line input line :
  line ∈ List.filter (fun bc => Str.truthy (Str.strip bc))
                     (Str.split input Str.newline)
  → Str.truthy (Str.strip line) = true
    ∧ (Str.newline ∉ Str.chars line)
    ∧ (∀ c, c ∈ Str.chars line → c ∈ Str.chars input).
Proof.
  rewrite elem_of_List_filter, split_unfold.
  intros [(q & -> & Hq)%list_elem_of_fmap Ht]. rewrite chars_of_chars.
  split_and!; [done|..].
  - intros Hin. by destruct (split_chars_elem_inv _ _ _ _ Hq Hin).
  - intros c Hc. by destruct (split_chars_elem_inv _ _ _ _ Hq Hc).
Qed.

Lemma nonblank_line_exists input :
  Str.truthy (Str.strip input) = true →
  ∃ line, line ∈ List.filter (fun bc => Str.truthy (Str.strip bc))
                             (Str.split input Str.newline).
Proof.
  intros (c & Hc & Hsp)%strip_nonempty_iff.
  destruct (split_chars_elem Str.newline _ c Hc) as (q & Hq & Hcq).
  { by intros ->. }
  exists (Str.of_chars q). rewrite elem_of_List_filter, split_unfold. split.
  - by apply list_elem_of_fmap_2.
  - apply strip_nonempty_iff. exists c. by rewrite chars_of_chars.
Qed.

End Lines.

(** X18.  The single-set tab turns the text area into the list of its
    non-blank lines, trimmed: every entry is non-empty, is not changed
    by trimming again, and contains no line break. *)
Theorem single_set_barcodes_are_trimmed_lines (barcode_input bc : string)
    (Hin : bc ∈ single_set_barcodes barcode_input) :
  bc ≠ "" ∧ Str.strip bc = bc ∧ (Str.newline ∉ Str.chars bc)
  ∧ ∃ line, line ∈ Str.split barcode_input Str.newline ∧ bc = Str.strip line.
Proof.
  unfold single_set_barcodes in Hin.
  change (map Str.strip) with (fmap (M := list) Str.strip) in Hin.
  apply list_elem_of_fmap in Hin as (line & -> & Hline).
  destruct (nonblank_line _ _ Hline) as (Ht & Hnl & _).
  split_and!.
  - by apply truthy_nonempty.
  - apply strip_idemp.
  - intros Hc. by apply Hnl, elem_of_strip.
  - exists line. split; [|done]. by apply elem_of_List_filter in Hline as [? _].
Qed.

Lemma single_set_barcodes_are_trimmed_lines_witness :
  "acgt" ≠ "" ∧ Str.strip "acgt" = "acgt" ∧ (Str.newline ∉ Str.chars "acgt")
  ∧ ∃ line, line ∈ Str.split (" acgt " +:+ LF +:+ "TTTT") Str.newline
            ∧ "acgt" = Str.strip line.
Proof.
  apply (single_set_barcodes_are_trimmed_lines (" acgt " +:+ LF +:+ "TTTT")).
  refine (bool_decide_unpack _ _). vm_compute. exact I.
Defined.

(** X19.  The guard [if barcode_input.strip()] of the single-set tab
    holds exactly when the list of barcodes read from the text is
    non-empty; so when the guard holds and no barcode is valid, the
    invalid output is non-empty. *)
Theorem single_set_guard_means_some_barcode (barcode_input : string) :
  (Str.truthy (Str.strip barcode_input) = true
   ↔ single_set_barcodes barcode_input ≠ [])
  ∧ (Str.truthy (Str.strip barcode_input) = true →
     (validate_barcodes (single_set_barcodes barcode_input)).1 = [] →
     (validate_barcodes (single_set_barcodes barcode_input)).2 ≠ []).
Proof.
  assert (Str.truthy (Str.strip barcode_input) = true
          ↔ single_set_barcodes barcode_input ≠ []) as Hguard.
  { unfold single_set_barcodes. split.
    - intros [line Hline]%nonblank_line_exists Hnil.
      apply (f_equal length) in Hnil. rewrite length_map in Hnil.
      destruct (List.filter _ _); [by apply not_elem_of_nil in Hline | done].
    - intros Hne.
      destruct (List.filter _ _) as [|line rest] eqn:Heq; [done|].
      assert (line ∈ List.filter (fun bc => Str.truthy (Str.strip bc))
                (Str.split barcode_input Str.newline)) as Hline
        by (rewrite Heq; by left).
      destruct (nonblank_line _ _ Hline) as ((c & Hc & Hsp)%strip_nonempty_iff & _ & Hsub).
      apply strip_nonempty_iff. exists c. auto. }
  split; [done|]. intros Ht Hvalid Hinvalid.
  apply Hguard in Ht. apply Ht.
  pose proof (length_filter_partition is_valid (single_set_barcodes barcode_input)) as Hlen.
  rewrite validate_barcodes_filter in Hvalid, Hinvalid. simpl in *.
  apply (f_equal length) in Hvalid, Hinvalid. rewrite length_fmap in Hvalid.
  rewrite Hvalid, Hinvalid in Hlen. simpl in Hlen.
  by destruct (single_set_barcodes barcode_input).
Qed.

Lemma single_set_guard_means_some_barcode_witness :
  single_set_barcodes (" " +:+ LF +:+ "ACGN" +:+ LF) ≠ []
  ∧ (validate_barcodes (single_set_barcodes (" " +:+ LF +:+ "ACGN" +:+ LF))).2 ≠ [].
Proof.
  destruct (single_set_guard_means_some_barcode (" " +:+ LF +:+ "ACGN" +:+ LF))
    as [Hguard Hinvalid].
  split.
  - apply Hguard. reflexivity.
  - apply Hinvalid; reflexivity.
Defined.



(** ** From validation to detection *)

(** X22.  When the within-set detector is given the valid output of the
    validator, as both callers do, every unique barcode and both
    barcodes of every record match [[ACGT]+]. *)
Theorem validated_within_set_barcodes_are_dna
    (raw : list string) (t : Z) (clashes : list record) (unique_list : list string)
    (Hret : check_barcodes_within_set (validate_barcodes raw).1 t
              (clashes, unique_list)) :
  Forall matches_ACGT_plus unique_list
  ∧ ∀ r, r ∈ clashes →
      ∃ a b, r = within_record a b (hamming_distance a b)
             ∧ matches_ACGT_plus a ∧ matches_ACGT_plus b.
Proof.
  destruct Hret as [(Hnd & Hsub & _) Hloop]; simpl in *.
  pose proof (validate_barcodes_valid_matches raw) as Hall.
  rewrite Forall_forall in Hall.
  assert (Forall matches_ACGT_plus unique_list) as Hu.
  { apply Forall_forall. intros x Hx. apply Hall, Hsub, Hx. }
  split; [done|]. rewrite Forall_forall in Hu.
  rewrite within_loop_filter in Hloop. subst clashes.
  intros r ([a b] & -> & [_ [Ha Hb]%elem_of_combinations2]%list_elem_of_filter)%list_elem_of_fmap.
  exists a, b. auto.
Qed.

Lemma validated_within_set_barcodes_are_dna_witness :
  Forall matches_ACGT_plus ["ACGT"; "ACGA"].
Proof.
  apply (validated_within_set_barcodes_are_dna [" acgt"; "ACGN"; "acga "] 1
           (within_loop ["ACGT"; "ACGA"] 1) ["ACGT"; "ACGA"]).
  refine (bool_decide_unpack _ _). vm_compute. exact I.
Defined.

(** X23.  When the cross-set detector is given the valid outputs of the
    validator, as its caller does, every record comes from two barcodes
    that match [[ACGT]+] and have the same length. *)
Theorem validated_between_sets_barcodes_are_dna
    (raw1 raw2 : list string) (t : Z) (n1 n2 : string) (r : record)
    (Hin : r ∈ check_barcodes_between_sets
                 (validate_barcodes raw1).1 (validate_barcodes raw2).1 t n1 n2) :
  ∃ a b, r = between_record n1 n2 a b (hamming_distance a b)
         ∧ matches_ACGT_plus a ∧ matches_ACGT_plus b
         ∧ String.length a = String.length b.
Proof.
  rewrite between_sets_filter in Hin.
  apply list_elem_of_fmap in Hin as ([a b] & -> & [Hc [Ha Hb]%list_elem_of_cprod]%list_elem_of_filter).
  simpl in *. exists a, b.
  pose proof (validate_barcodes_valid_matches raw1) as H1.
  pose proof (validate_barcodes_valid_matches raw2) as H2.
  rewrite Forall_forall in H1, H2.
  split_and!; [done|auto|auto|by eapply clashing_same_length].
Qed.

Lemma validated_between_sets_barcodes_are_dna_witness :
  ∃ a b, between_record "Set 1" "Set 2" "ACGT" "ACGA" (Int 1)
         = between_record "Set 1" "Set 2" a b (hamming_distance a b)
         ∧ matches_ACGT_plus a ∧ matches_ACGT_plus b
         ∧ String.length a = String.length b.
Proof.
  apply (validated_between_sets_barcodes_are_dna [" acgt"; "ACGN"] ["acga "] 1).
  refine (bool_decide_unpack _ _). vm_compute. exact I.
Defined.

(** ** A set compared with itself *)

Lemma length_filter_cprod_self {A} (Q : A * A → Prop) `{!∀ p, Decision (Q p)}
    (l : list A) :
  (∀ a b, Q (a, b) → Q (b, a)) → (∀ a, Q (a, a)) →
  length (filter Q (cprod l l))
  = (2 * length (filter Q (combinations2 l)) + length l)%nat.
Proof.
  intros Hsym Hrefl. induction l as [|x l IH]; [done|].
  rewrite length_filter_cprod_cons_r, filter_cons_True by done.
  rewrite cprod_cons, combinations2_cons, !filter_app, !length_app, IH.
  rewrite !list_filter_fmap, !length_fmap.
  rewrite (filter_ext_elem (λ a, Q (a, x)) (λ a, Q (x, a)))
    by (intros a _; split; apply Hsym).
  simpl length. lia.
Qed.

(** X24.  Giving the cross-set detector the unique list of the within-set
    detector as both sets (with a threshold of 0 or more) reports every
    within-set clash twice and, in addition, every barcode against
    itself. *)
Theorem between_sets_of_a_set_with_itself
    (barcodes : list string) (t : Z) (clashes : list record)
    (unique_list : list string) (n1 n2 : string)
    (Ht : 0 ≤ t)
    (Hret : check_barcodes_within_set barcodes t (clashes, unique_list)) :
  length (check_barcodes_between_sets unique_list unique_list t n1 n2)
  = (2 * length clashes + length unique_list)%nat.
Proof.
  destruct Hret as [_ Hloop]; simpl in *. subst clashes.
  rewrite between_sets_filter, within_loop_filter, !length_fmap.
  apply length_filter_cprod_self.
  - intros a b. apply clashing_sym.
  - intros a. by apply (clashing_mono 0 t), clashing_zero.
Qed.

Lemma between_sets_of_a_set_with_itself_witness :
  length (check_barcodes_between_sets
            ["ACGT"; "ACGA"; "TGCA"] ["ACGT"; "ACGA"; "TGCA"] 1 "A" "B")
  = (2 * length (within_loop ["ACGT"; "ACGA"; "TGCA"] 1) + 3)%nat.
Proof.
  apply (between_sets_of_a_set_with_itself ["ACGT"; "ACGA"; "TGCA"] 1
           _ ["ACGT"; "ACGA"; "TGCA"] "A" "B").
  - lia.
  - refine (bool_decide_unpack _ _). vm_compute. exact I.
Defined.

(** ** Objects that are not strings *)

Section Raising.

Lemma dyn_validate_after_raise (objs : list Dyn.object) (e : Dyn.exc) :
  fold_left
    (fun (state : Dyn.py (list Dyn.object * list Dyn.object)) bc =>
       '(valid, invalid) ← state;
       bc_clean ← Dyn.strip_upper bc ;
       if Str.truthy bc_clean
          && forallb (fun c => Str.char_in c "ACGT") (Str.chars bc_clean)
       then mret (valid ++ [Dyn.OStr bc_clean], invalid)
       else mret (valid, invalid ++ [bc]))
    objs (inl e)
  = inl e.
Proof. induction objs as [|o objs IH]; [done|]. simpl. apply IH. Qed.

Lemma dyn_validate_raises_from (objs : list Dyn.object) (o : Dyn.object)
    (state : Dyn.py (list Dyn.object * list Dyn.object)) :
  o ∈ objs → (∀ s, o ≠ Dyn.OStr s) →
  (state = inl Dyn.AttributeError ∨ ∃ x, state = inr x) →
  fold_left
    (fun (state : Dyn.py (list Dyn.object * list Dyn.object)) bc =>
       '(valid, invalid) ← state;
       bc_clean ← Dyn.strip_upper bc ;
       if Str.truthy bc_clean
          && forallb (fun c => Str.char_in c "ACGT") (Str.chars bc_clean)
       then mret (valid ++ [Dyn.OStr bc_clean], invalid)
       else mret (valid, invalid ++ [bc]))
    objs state
  = inl Dyn.AttributeError.
Proof.
  intros Hin Hns. revert state.
  induction objs as [|x objs IH]; intros state Hst;
    [by apply not_elem_of_nil in Hin|].
  simpl. apply elem_of_cons in Hin as [<-|Hin].
  - destruct Hst as [->|[[v i] ->]]; simpl.
    + apply dyn_validate_after_raise.
    + destruct o as [s| |]; [by destruct (Hns s)|..]; simpl;
        apply dyn_validate_after_raise.
  - apply IH; [done|].
    destruct Hst as [->|[[v i] ->]]; simpl; [by left|].
    destruct x as [s| |]; simpl; [|by left..].
    right. destruct (_ && _); eauto.
Qed.

End Raising.

(** X25.  An entry that is not a string ([None], a number) makes
    [validate_barcodes] raise [AttributeError], wherever it stands in
    the list: no output is returned, not even for the entries before
    it. *)
Theorem validate_barcodes_raises_on_non_string
    (objs : list Dyn.object) (o : Dyn.object)
    (Hin : o ∈ objs) (Hns : ∀ s, o ≠ Dyn.OStr s) :
  Dyn.validate_barcodes objs = inl Dyn.AttributeError.
Proof.
  unfold Dyn.validate_barcodes.
  apply (dyn_validate_raises_from objs o); [done..|]. right. by eexists.
Qed.

Lemma validate_barcodes_raises_on_non_string_witness :
  Dyn.validate_barcodes [Dyn.OStr "ACGT"; Dyn.ONum (Int 7); Dyn.OStr "TTTT"]
  = inl Dyn.AttributeError.
Proof.
  apply (validate_barcodes_raises_on_non_string _ (Dyn.ONum (Int 7))).
  - right. left.
  - intros s. discriminate.
Defined.

(** ** Line splitting *)

(** X26.  [split('\n')] loses nothing and cuts at every line break:
    joining the pieces with a line break gives the text back, and no
    piece contains a line break. *)
Theorem split_lines_round_trip (text : string) :
  join_chars Str.newline (Str.chars <$> Str.split text Str.newline)
  = Str.chars text
  ∧ ∀ line, line ∈ Str.split text Str.newline → Str.newline ∉ Str.chars line.
Proof.
  rewrite split_unfold. split.
  - rewrite <-list_fmap_compose.
    assert (∀ qs : list (list ascii), (Str.chars ∘ Str.of_chars) <$> qs = qs) as ->.
    { intros qs. induction qs as [|q qs IH]; [done|].
      rewrite fmap_cons, IH. simpl. by rewrite chars_of_chars. }
    apply split_chars_join.
  - intros line (q & -> & Hq)%list_elem_of_fmap. rewrite chars_of_chars.
    intros Hin. by destruct (split_chars_elem_inv _ _ _ _ Hq Hin).
Qed.

Lemma split_lines_round_trip_witness :
  Str.newline ∉ Str.chars "ACGT".
Proof.
  apply (proj2 (split_lines_round_trip ("ACGT" +:+ LF +:+ "TTTT")) "ACGT").
  refine (bool_decide_unpack _ _). vm_compute. exact I.
Defined.
